(** * node-basics-exercise: users store, task registry and worker

    A shallow embedding of the Express application ([app], the file with
    the route handlers) and of [src/worker.ts], with the properties of
    the specification proved about it.

    Conventions of the embedding.
    - A JavaScript string is a [string], one character for each code
      unit; [===] on strings is [String.eqb].
    - A JavaScript number is a [jsnum]: a finite value (a rational), an
      infinity or NaN.  Array lengths are [Z]; the numbers that
      [parseInt] yields and the page arithmetic of [GET /users] are
      [intnum]: doubles with an integer value, the infinities and NaN.
    - The file [data/users.json] is the [disk] component of the [world];
      handlers are computations in the monad [M], which threads the
      world and carries the JavaScript exception, if one is thrown.
    - What the platform decides ([randomUUID()], [new Date()],
      [Date.now()]) is handed to a handler in an [env].
    - A request is served from its first statement to its last without
      another request or a worker event in between. *)

From Stdlib Require Import ZArith QArith Qround Ascii String List Lia.
From stdpp Require Import base option list strings gmap.
From Equations Require Import Equations.

Local Open Scope string_scope.
Local Open Scope Z_scope.
Local Open Scope list_scope.

(** ** The identifier pattern

    [/^[0-9a-f]{8}-[0-9a-f]{4}-[0-9a-f]{4}-[0-9a-f]{4}-[0-9a-f]{12}$/i],
    the literal that the three [:id] handlers test.  The regular
    expressions of this shape are sequences of counted character
    classes, anchored at both ends; [$] without the [m] flag is the end
    of the input. *)

Module Regex.

Inductive char_class :=
| HexLower          (* [0-9a-f] *)
| Lit (c : ascii).  (* a literal character *)

(** [X{n}] *)
Record piece := Rep { cls : char_class; count : nat }.

(** [^ p1 p2 ... $], with the [i] flag or without. *)
Record t := Anchored { pieces : list piece; ignore_case : bool }.

Definition between (lo hi : nat) (c : ascii) : bool :=
  let n := nat_of_ascii c in (lo <=? n)%nat && (n <=? hi)%nat.

Definition is_digit (c : ascii) : bool := between 48 57 c.
Definition is_lower_af (c : ascii) : bool := between 97 102 c.
Definition is_upper_AF (c : ascii) : bool := between 65 70 c.

(** Canonicalisation of the [i] flag on the ASCII letters. *)
Definition to_upper (c : ascii) : ascii :=
  if between 97 122 c then ascii_of_nat (nat_of_ascii c - 32) else c.

Definition class_matches (i : bool) (k : char_class) (c : ascii) : bool :=
  match k with
  | HexLower => is_digit c || is_lower_af c || (i && is_upper_AF c)
  | Lit d => if i then Ascii.eqb (to_upper c) (to_upper d) else Ascii.eqb c d
  end.

(** Consume exactly [n] characters of class [k]; the rest of the input. *)
Fixpoint eat (i : bool) (k : char_class) (n : nat) (s : string) : option string :=
  match n with
  | O => Some s
  | S n' =>
      match s with
      | String c s' => if class_matches i k c then eat i k n' s' else None
      | EmptyString => None
      end
  end.

Fixpoint match_pieces (i : bool) (ps : list piece) (s : string) : bool :=
  match ps with
  | [] => match s with EmptyString => true | _ => false end
  | p :: ps' =>
      match eat i (cls p) (count p) s with
      | Some rest => match_pieces i ps' rest
      | None => false
      end
  end.

Definition test (r : t) (s : string) : bool :=
  match_pieces (ignore_case r) (pieces r) s.

End Regex.

Definition uuidRegex : Regex.t :=
  let hex n := Regex.Rep Regex.HexLower n in
  let dash := Regex.Rep (Regex.Lit "-") 1 in
  Regex.Anchored
    [hex 8%nat; dash; hex 4%nat; dash; hex 4%nat; dash; hex 4%nat; dash; hex 12%nat]
    true.

(** The pattern in the words of the specification: five groups of 8, 4,
    4, 4 and 12 hexadecimal digits, joined by hyphens. *)
Definition hex_digit (c : ascii) : Prop :=
  c ∈ list_ascii_of_string "0123456789abcdefABCDEF".

Definition hex_group (n : nat) (g : string) : Prop :=
  String.length g = n ∧ Forall hex_digit (list_ascii_of_string g).

Definition canonical_uuid (s : string) : Prop :=
  ∃ g1 g2 g3 g4 g5,
    s = g1 +:+ "-" +:+ g2 +:+ "-" +:+ g3 +:+ "-" +:+ g4 +:+ "-" +:+ g5
    ∧ hex_group 8 g1 ∧ hex_group 4 g2 ∧ hex_group 4 g3
    ∧ hex_group 4 g4 ∧ hex_group 12 g5.

(** ** JavaScript values *)

(** A number: [Finite q] is the double whose value is [q]. *)
Inductive jsnum :=
| Finite (q : Q)
| Infinity (negative : bool)
| NaN.

(** A value as [express.json()] hands it over; the contents of nested
    arrays and objects are not inspected by any schema. *)
Inductive jsval :=
| JNull
| JBool (b : bool)
| JNum (n : jsnum)
| JStr (s : string)
| JArray
| JObject.

(** [req.body]: an object with its own properties, or something else
    (an array, or nothing at all). *)
Inductive req_body :=
| NotAnObject
| Obj (fields : gmap string jsval).

(** ** Records *)

Module User.
Record t := mk {
  id : string;
  name : string;
  email : string;
  createdAt : string;
  isActive : option bool   (* isActive?: boolean *)
}.
End User.

Module Status.
Inductive t := processing | completed | error.
End Status.

Module Task.
Record t := mk {
  taskId : string;
  status : Status.t;
  iterations : jsnum;
  result : option jsnum;
  duration : option Z;
  error : option string
}.
End Task.

(** ** zod

    The checks of the zod schemas the application builds.  A schema
    runs all the checks of a value and reports every one that fails. *)

Inductive issue_code := invalid_type | too_small | too_big | invalid_format.

Record issue := Issue { path : list string; code : issue_code }.

Module Zod.

Definition check (A : Type) := A → option issue_code.

(** [.min(n)] on a string *)
Definition min_length (n : nat) : check string :=
  λ s, if (n <=? String.length s)%nat then None else Some too_small.

(** the format check of [z.email()], over the library's pattern *)
Definition email_format (is_email : string → bool) : check string :=
  λ s, if is_email s then None else Some invalid_format.

Definition is_integer (q : Q) : bool := Qeq_bool q (inject_Z (Qfloor q)).

(** [.int()] *)
Definition int : check jsnum :=
  λ n, match n with
       | Finite q => if is_integer q then None else Some invalid_type
       | _ => Some invalid_type
       end.

(** [.positive()] *)
Definition positive : check jsnum :=
  λ n, match n with
       | Finite q => if Qle_bool q 0 then Some too_small else None
       | Infinity neg => if neg then Some too_small else None
       | NaN => Some too_small
       end.

(** [.max(m)] *)
Definition max (m : Z) : check jsnum :=
  λ n, match n with
       | Finite q => if Qle_bool q (inject_Z m) then None else Some too_big
       | Infinity neg => if neg then None else Some too_big
       | NaN => Some too_big
       end.

Definition run_checks {A} (cs : list (check A)) (a : A) : list issue_code :=
  omap (λ c, c a) cs.

(** [z.string()] with its checks, on a property that may be absent *)
Definition string_ (cs : list (check string)) (v : option jsval)
  : list issue_code + string :=
  match v with
  | Some (JStr s) =>
      match run_checks cs s with [] => inr s | codes => inl codes end
  | _ => inl [invalid_type]
  end.

(** [z.number()] with its checks; NaN and the infinities are no numbers
    for it *)
Definition number_ (cs : list (check jsnum)) (v : option jsval)
  : list issue_code + jsnum :=
  match v with
  | Some (JNum (Finite q)) =>
      match run_checks cs (Finite q) with
      | [] => inr (Finite q)
      | codes => inl codes
      end
  | _ => inl [invalid_type]
  end.

(** the issues of one property of an object *)
Definition at_key {A} (k : string) (r : list issue_code + A) : list issue :=
  match r with
  | inl codes => Issue [k] <$> codes
  | inr _ => []
  end.

End Zod.

(** ** The world

    The users file, as [readFile] and [JSON.parse] find it: absent,
    unreadable, or present with a text that is the serialisation of an
    array of users or is no JSON at all.  A file with the text of some
    other JSON value (no array, or an array with an element that is no
    user record) is not among these worlds: on such a file a handler
    can throw a [TypeError], which its [catch] answers with 500.
    [writable] says whether the platform accepts a write of the file.
    Task objects live in a heap, since the [Map] and the callbacks of
    the worker hold the same object. *)

Inductive file_content :=
| Unparsable
| Json (users : list User.t).

Inductive file_state :=
| Absent
| Unreadable
| Present (c : file_content).

Inductive thread_state := Running | Exited.

Definition loc := nat.

(** What the two listeners of a worker capture: [task], [taskId] and
    [startTime]. *)
Record closure := Closure {
  c_task : loc;
  c_taskId : string;
  c_startTime : Z
}.

Record worker := Worker {
  workerData : jsnum;
  thread : thread_state;
  listeners : option closure
}.

Inductive event :=
| ReadFile
| WriteFile
| TasksGet (key : string)
| TasksSet (key : string)
| NewWorker (wid : nat).

Record world := World {
  file : file_state;
  writable : bool;
  heap : gmap loc Task.t;
  tasks : gmap string loc;
  workers : gmap nat worker;
  log : list event
}.

Definition set_file (f : file_state) (w : world) : world :=
  World f (writable w) (heap w) (tasks w) (workers w) (log w).

Definition set_heap (h : gmap loc Task.t) (w : world) : world :=
  World (file w) (writable w) h (tasks w) (workers w) (log w).

Definition set_tasks (t : gmap string loc) (w : world) : world :=
  World (file w) (writable w) (heap w) t (workers w) (log w).

Definition set_workers (ws : gmap nat worker) (w : world) : world :=
  World (file w) (writable w) (heap w) (tasks w) ws (log w).

Definition emit (ev : event) (w : world) : world :=
  World (file w) (writable w) (heap w) (tasks w) (workers w) (log w ++ [ev]).

(** A start of the process: nothing in memory, the disk as it is. *)
Definition boot (f : file_state) (wr : bool) : world :=
  World f wr ∅ ∅ ∅ [].

(** ** Computations *)

Inductive exn :=
| ZodError (issues : list issue)
| FsError
| SyntaxError.

Definition M (A : Type) : Type := world → (exn + A) * world.

Definition ret {A} (a : A) : M A := λ w, (inr a, w).

Definition throw {A} (e : exn) : M A := λ w, (inl e, w).

Definition bind {A B} (c : M A) (k : A → M B) : M B :=
  λ w, match c w with
       | (inr a, w') => k a w'
       | (inl e, w') => (inl e, w')
       end.

(** [try { c } catch (e) { h }]; what [c] did before it threw stays
    done. *)
Definition try_catch {A} (c : M A) (h : exn → M A) : M A :=
  λ w, match c w with
       | (inr a, w') => (inr a, w')
       | (inl e, w') => h e w'
       end.

Notation "x <~ c ;; k" := (bind c (λ x, k))
  (at level 100, c at next level, right associativity).

Definition tell (ev : event) : M unit := λ w, (inr tt, emit ev w).

(** *** The file *)

Definition readFile : M file_content :=
  _ <~ tell ReadFile ;;
  λ w, match file w with
       | Present c => (inr c, w)
       | Absent | Unreadable => (inl FsError, w)
       end.

(** The text of the file is kept as the value it denotes, so
    [JSON.stringify] of an array of users is that array and
    [JSON.parse] hands it back. *)
Definition JSON_parse (c : file_content) : M (list User.t) :=
  match c with
  | Json users => ret users
  | Unparsable => throw SyntaxError
  end.

Definition JSON_stringify (users : list User.t) : file_content := Json users.

Definition writeFile (c : file_content) : M unit :=
  _ <~ tell WriteFile ;;
  λ w, if writable w then (inr tt, set_file (Present c) w) else (inl FsError, w).

Definition readUsers : M (list User.t) :=
  try_catch
    (data <~ readFile ;; JSON_parse data)
    (λ _, ret []).

Definition writeUsers (users : list User.t) : M unit :=
  writeFile (JSON_stringify users).

(** *** Task objects, the [tasks] map and workers *)

Definition new_object (t : Task.t) : M loc :=
  λ w, let l := fresh (dom (heap w)) in (inr l, set_heap (<[l := t]> (heap w)) w).

Definition assign (l : loc) (f : Task.t → Task.t) : M unit :=
  λ w, (inr tt, set_heap (alter f l (heap w)) w).

Definition tasks_set (key : string) (l : loc) : M unit :=
  _ <~ tell (TasksSet key) ;;
  λ w, (inr tt, set_tasks (<[key := l]> (tasks w)) w).

Definition tasks_get (key : string) : M (option loc) :=
  _ <~ tell (TasksGet key) ;;
  λ w, (inr (tasks w !! key), w).

(** the object behind a reference, as [res.json] serialises it *)
Definition snapshot (l : loc) : M (option Task.t) :=
  λ w, (inr (heap w !! l), w).

Definition new_Worker (data : jsnum) : M nat :=
  λ w, let wid := fresh (dom (workers w)) in
       (inr wid,
        emit (NewWorker wid)
          (set_workers (<[wid := Worker data Running None]> (workers w)) w)).

(** [worker.on("message", ...)] and [worker.on("error", ...)] *)
Definition worker_on (wid : nat) (c : closure) : M unit :=
  λ w, (inr tt,
        set_workers
          (alter (λ k, Worker (workerData k) (thread k) (Some c)) wid (workers w)) w).

(** ** Built-ins of the language *)

(** *** Doubles with an integer value

    The numbers of the page arithmetic: [Whole z] is the double whose
    value is the integer [z].  Signed zeros are not told apart. *)
Inductive intnum :=
| Whole (z : Z)
| Infinite (negative : bool)
| NotANumber.

(** The double nearest to an integer, ties to the even mantissa: the
    integer itself below 2^53, a multiple of the spacing of doubles
    above, and an infinity from 2^1024 - 2^970 on. *)
Definition round_double (n : Z) : intnum :=
  let a := Z.abs n in
  if a <? 2 ^ 53 then Whole n
  else
    let s := Z.log2 a - 52 in
    let q := a / 2 ^ s in
    let r := a mod 2 ^ s in
    let half := 2 ^ (s - 1) in
    let q' := if (half <? r) || ((r =? half) && Z.odd q) then q + 1 else q in
    let v := q' * 2 ^ s in
    if 2 ^ 1024 <=? v then Infinite (n <? 0) else Whole (Z.sgn n * v).

(** [x + y], [x - y] and [x * y] *)
Definition num_add (x y : intnum) : intnum :=
  match x, y with
  | NotANumber, _ | _, NotANumber => NotANumber
  | Infinite a, Infinite b => if Bool.eqb a b then Infinite a else NotANumber
  | Infinite a, Whole _ | Whole _, Infinite a => Infinite a
  | Whole a, Whole b => round_double (a + b)
  end.

Definition num_sub (x y : intnum) : intnum :=
  match x, y with
  | NotANumber, _ | _, NotANumber => NotANumber
  | Infinite a, Infinite b => if Bool.eqb a b then NotANumber else Infinite a
  | Infinite a, Whole _ => Infinite a
  | Whole _, Infinite b => Infinite (negb b)
  | Whole a, Whole b => round_double (a - b)
  end.

Definition num_mul (x y : intnum) : intnum :=
  match x, y with
  | NotANumber, _ | _, NotANumber => NotANumber
  | Infinite a, Infinite b => Infinite (xorb a b)
  | Infinite a, Whole z | Whole z, Infinite a =>
      if z =? 0 then NotANumber else Infinite (xorb a (z <? 0))
  | Whole a, Whole b => round_double (a * b)
  end.

(** [x < y]; false when one of them is NaN *)
Definition num_lt (x y : intnum) : bool :=
  match x, y with
  | Whole a, Whole b => a <? b
  | Infinite true, Whole _ | Whole _, Infinite false => true
  | Infinite a, Infinite b => a && negb b
  | _, _ => false
  end.

(** [parseInt(s)] without a radix.  White space is the space, the
    characters from tab to carriage return, and the no-break space.
    [parseInt_value] is the integer that the digits denote ([None]
    when there is no digit), and [parseInt] the double that stands for
    it: NaN without a digit, an infinity for some 309 digits and
    more. *)
Definition is_space (c : ascii) : bool :=
  let n := nat_of_ascii c in
  (n =? 32)%nat || ((9 <=? n)%nat && (n <=? 13)%nat) || (n =? 160)%nat.

Fixpoint skip_spaces (s : string) : string :=
  match s with
  | String c s' => if is_space c then skip_spaces s' else s
  | EmptyString => s
  end.

Definition digit_value (radix : Z) (c : ascii) : option Z :=
  let n := Z.of_nat (nat_of_ascii c) in
  let v := if ((48 <=? n) && (n <=? 57))%Z then Some (n - 48)
           else if ((97 <=? n) && (n <=? 122))%Z then Some (n - 87)
           else if ((65 <=? n) && (n <=? 90))%Z then Some (n - 55)
           else None in
  match v with
  | Some d => if (d <? radix)%Z then Some d else None
  | None => None
  end.

(** the longest prefix of digits, read from the left *)
Fixpoint digits_from (radix : Z) (acc : option Z) (s : string) : option Z :=
  match s with
  | String c s' =>
      match digit_value radix c with
      | Some d => digits_from radix (Some (default 0 acc * radix + d)) s'
      | None => acc
      end
  | EmptyString => acc
  end.

Definition parseInt_value (x : option string) : option Z :=
  let s := skip_spaces (default "undefined" x) in
  let '(sign, s) :=
    match s with
    | String "-" s' => (-1, s')
    | String "+" s' => (1, s')
    | _ => (1, s)
    end in
  let '(radix, s) :=
    match s with
    | String "0" (String "x" s') | String "0" (String "X" s') => (16, s')
    | _ => (10, s)
    end in
  (λ n, sign * n) <$> digits_from radix None s.

Definition parseInt (x : option string) : intnum :=
  match parseInt_value x with
  | Some n => round_double n
  | None => NotANumber
  end.

(** [x || d] on a number: 0 and NaN are falsy *)
Definition or_else (x d : intnum) : intnum :=
  match x with
  | Whole n => if n =? 0 then d else x
  | Infinite _ => x
  | NotANumber => d
  end.

(** the ceiling of the quotient of two integers, [b] not 0 *)
Definition Math_ceil_div (a b : Z) : Z := Qceiling (inject_Z a / inject_Z b).

(** [Math.ceil(total / limit)] for the length of an array.  An array
    has fewer than 2^32 elements, so the quotient by a finite [limit]
    is an integer or too far from one for its rounding to reach it,
    and the ceiling is that of the exact quotient; by an infinity the
    quotient is 0. *)
Definition Math_ceil_quotient (total : Z) (limit : intnum) : intnum :=
  match limit with
  | Whole b =>
      if b =? 0 then (if total =? 0 then NotANumber else Infinite (total <? 0))
      else Whole (Math_ceil_div total b)
  | Infinite _ => Whole 0
  | NotANumber => NotANumber
  end.

(** the index arithmetic of [slice] and [splice]: a negative index
    counts from the end, and both ends are clamped *)
Definition relative_index (len i : Z) : Z :=
  if (i <? 0)%Z then Z.max (len + i) 0 else Z.min i len.

(** [l.slice(start, end)]: of an index that is a number, NaN counts as
    0 and an infinity is clamped like any index beyond the ends *)
Definition relative_index_num (len : Z) (i : intnum) : Z :=
  match i with
  | Whole z => relative_index len z
  | Infinite true => 0
  | Infinite false => len
  | NotANumber => relative_index len 0
  end.

Definition slice {A} (start end_ : intnum) (l : list A) : list A :=
  let len := Z.of_nat (length l) in
  let k := relative_index_num len start in
  let final := relative_index_num len end_ in
  take (Z.to_nat (final - k)) (drop (Z.to_nat k) l).

(** [l.splice(start, deleteCount)]: the array that is left *)
Definition splice {A} (start deleteCount : Z) (l : list A) : list A :=
  let len := Z.of_nat (length l) in
  let k := relative_index len start in
  let n := Z.min (Z.max deleteCount 0) (len - k) in
  take (Z.to_nat k) l ++ drop (Z.to_nat (k + n)) l.

Fixpoint findIndex_from {A} (p : A → bool) (l : list A) (i : Z) : Z :=
  match l with
  | [] => -1
  | x :: l' => if p x then i else findIndex_from p l' (i + 1)
  end.

Definition findIndex {A} (p : A → bool) (l : list A) : Z := findIndex_from p l 0.

Definition some {A} (p : A → bool) (l : list A) : bool := existsb p l.

(** ** HTTP *)

(** The [pagination] object as the handler hands it to [res.json], which
    writes a number that is an infinity or NaN as [null]. *)
Record pagination := Pagination {
  page : intnum;
  limit : intnum;
  total : Z;
  pages : intnum
}.

Inductive resp_body :=
| NoBody                                                   (* [send()] *)
| ErrorMsg (error : string)                                (* [{ error }] *)
| Issues (error : list issue)                              (* [{ error: issues }] *)
| Health                                                   (* [{ status: "ok" }] *)
| OneUser (user : User.t)
| UserArray (users : list User.t)
| Paginated (data : list User.t) (p : pagination)          (* [{ data, pagination }] *)
| Accepted (taskId : string) (status : Status.t) (iterations : jsnum)
| OneTask (task : Task.t).

Record response := Response { status : Z; body : resp_body }.

(** What the platform supplies to one request. *)
Record env := Env {
  randomUUID : string;     (* [randomUUID()] *)
  toISOString : string;    (* [new Date().toISOString()] *)
  Date_now : Z             (* [Date.now()] *)
}.

Record UserInput := { name : string; email : string }.

Definition internal_error : M response :=
  ret (Response 500 (ErrorMsg "Internal server error")).

Section App.

(** The pattern of [z.email()], which belongs to zod. *)
Variable is_email : string → bool.

Definition UserSchema_parse (b : req_body) : M UserInput :=
  match b with
  | NotAnObject => throw (ZodError [Issue [] invalid_type])
  | Obj fields =>
      let n := Zod.string_ [Zod.min_length 2] (fields !! "name") in
      let e := Zod.string_ [Zod.email_format is_email] (fields !! "email") in
      match n, e with
      | inr n', inr e' => ret {| name := n'; email := e' |}
      | _, _ => throw (ZodError (Zod.at_key "name" n ++ Zod.at_key "email" e))
      end
  end.

Definition TaskSchema_parse (b : req_body) : M jsnum :=
  match b with
  | NotAnObject => throw (ZodError [Issue [] invalid_type])
  | Obj fields =>
      match Zod.number_ [Zod.int; Zod.positive; Zod.max 1000000]
              (fields !! "iterations") with
      | inr n => ret n
      | inl codes => throw (ZodError (Issue ["iterations"] <$> codes))
      end
  end.

(** [GET /health] *)
Definition get_health : M response := ret (Response 200 Health).

(** [GET /users/active] *)
Definition get_users_active : M response :=
  try_catch
    (users <~ readUsers ;;
     let activeUsers :=
       List.filter (λ user, bool_decide (User.isActive user = Some true)) users in
     ret (Response 200 (UserArray activeUsers)))
    (λ _, internal_error).

(** [POST /users] *)
Definition post_users (e : env) (b : req_body) : M response :=
  try_catch
    (validatedData <~ UserSchema_parse b ;;
     users <~ readUsers ;;
     let emailExists :=
       some (λ user, String.eqb (User.email user) (email validatedData)) users in
     if emailExists then ret (Response 409 (ErrorMsg "Email already exists"))
     else
       let newUser :=
         User.mk (randomUUID e) (name validatedData) (email validatedData)
           (toISOString e) None in
       let users := users ++ [newUser] in
       _ <~ writeUsers users ;;
       ret (Response 201 (OneUser newUser)))
    (λ error,
       match error with
       | ZodError issues => ret (Response 400 (Issues issues))
       | _ => internal_error
       end).

(** [GET /users]; the arguments are [req.query.page] and
    [req.query.limit] *)
Definition get_users (q_page q_limit : option string) : M response :=
  try_catch
    (users <~ readUsers ;;
     let page := or_else (parseInt q_page) (Whole 1) in
     let limit := or_else (parseInt q_limit) (Whole 10) in
     let page := if num_lt page (Whole 1) then Whole 1 else page in
     let limit := if num_lt limit (Whole 1) then Whole 10 else limit in
     let reversedUsers := reverse users in
     let total := Z.of_nat (length reversedUsers) in
     let pages := Math_ceil_quotient total limit in
     let startIndex := num_mul (num_sub page (Whole 1)) limit in
     let endIndex := num_add startIndex limit in
     let paginatedUsers := slice startIndex endIndex reversedUsers in
     ret (Response 200
            (Paginated paginatedUsers (Pagination page limit total pages))))
    (λ _, internal_error).

Definition user_not_found : M response :=
  ret (Response 404 (ErrorMsg "User not found")).

(** [GET /users/:id] *)
Definition get_users_id (id : string) : M response :=
  try_catch
    (if negb (Regex.test uuidRegex id) then user_not_found
     else
       users <~ readUsers ;;
       match List.find (λ u, String.eqb (User.id u) id) users with
       | None => user_not_found
       | Some user => ret (Response 200 (OneUser user))
       end)
    (λ _, internal_error).

(** [DELETE /users/:id] *)
Definition delete_users_id (id : string) : M response :=
  try_catch
    (if negb (Regex.test uuidRegex id) then user_not_found
     else
       users <~ readUsers ;;
       let userIndex := findIndex (λ u, String.eqb (User.id u) id) users in
       if userIndex =? -1 then user_not_found
       else
         let users := splice userIndex 1 users in
         _ <~ writeUsers users ;;
         ret (Response 204 NoBody))
    (λ _, internal_error).

(** [POST /tasks/heavy] *)
Definition post_tasks_heavy (e : env) (b : req_body) : M response :=
  try_catch
    (iterations <~ TaskSchema_parse b ;;
     let taskId := randomUUID e in
     task <~ new_object (Task.mk taskId Status.processing iterations None None None) ;;
     _ <~ tasks_set taskId task ;;
     wid <~ new_Worker iterations ;;
     let startTime := Date_now e in
     _ <~ worker_on wid (Closure task taskId startTime) ;;
     ret (Response 202 (Accepted taskId Status.processing iterations)))
    (λ error,
       match error with
       | ZodError issues => ret (Response 400 (Issues issues))
       | _ => internal_error
       end).

Definition task_not_found : M response :=
  ret (Response 404 (ErrorMsg "Task not found")).

(** [GET /tasks/:taskId] *)
Definition get_tasks_id (taskId : string) : M response :=
  if negb (Regex.test uuidRegex taskId) then task_not_found
  else
    task <~ tasks_get taskId ;;
    match task with
    | None => task_not_found
    | Some l =>
        t <~ snapshot l ;;
        match t with
        | Some t => ret (Response 200 (OneTask t))
        | None => task_not_found
        end
    end.

(** The listener of ["message"]. *)
Definition on_message (c : closure) (result : jsnum) (now : Z) : M unit :=
  let duration := now - c_startTime c in
  _ <~ assign (c_task c)
         (λ t, Task.mk (Task.taskId t) Status.completed (Task.iterations t)
                 (Some result) (Some duration) (Task.error t)) ;;
  tasks_set (c_taskId c) (c_task c).

(** The listener of ["error"]. *)
Definition on_error (c : closure) (message : string) : M unit :=
  _ <~ assign (c_task c)
         (λ t, Task.mk (Task.taskId t) Status.error (Task.iterations t)
                 (Task.result t) (Task.duration t) (Some message)) ;;
  tasks_set (c_taskId c) (c_task c).

(** ** The system

    A request is served in one piece, and requests are served one after
    the other: a run of the system has no two requests that overlap.
    (The handlers under [/users] wait for the file at [await
    readUsers()] and [await writeUsers()], where the server can take up
    another request; such runs are not among those of [run].)  A
    worker runs [src/worker.ts]:
    it computes, posts one message as its last statement and is done;
    if it fails before that (an exception of the script, or the script
    cannot be loaded) it emits one error instead and is done. *)

Inductive request :=
| GET_health
| GET_users_active
| POST_users (b : req_body)
| GET_users (q_page q_limit : option string)
| GET_users_id (id : string)
| DELETE_users_id (id : string)
| POST_tasks_heavy (b : req_body)
| GET_tasks_id (taskId : string).

Definition route (e : env) (r : request) : M response :=
  match r with
  | GET_health => get_health
  | GET_users_active => get_users_active
  | POST_users b => post_users e b
  | GET_users p l => get_users p l
  | GET_users_id id => get_users_id id
  | DELETE_users_id id => delete_users_id id
  | POST_tasks_heavy b => post_tasks_heavy e b
  | GET_tasks_id id => get_tasks_id id
  end.

(** An exception that leaves a handler goes to the error handler of
    Express. *)
Definition serve (e : env) (r : request) (w : world) : response * world :=
  match route e r w with
  | (inr res, w') => (res, w')
  | (inl _, w') => (Response 500 NoBody, w')
  end.

(** The users [readUsers] would return. *)
Definition stored (w : world) : list User.t :=
  match file w with
  | Present (Json users) => users
  | _ => []
  end.

(** The record the registry holds for an id. *)
Definition registered (w : world) (taskId : string) : option Task.t :=
  l ← tasks w !! taskId; heap w !! l.

(** [randomUUID()] returns an identifier of the canonical shape that is
    not in use. *)
Definition fresh_uuid (e : env) (w : world) : bool :=
  Regex.test uuidRegex (randomUUID e)
  && bool_decide (tasks w !! randomUUID e = None)
  && bool_decide (randomUUID e ∉ User.id <$> stored w).

Inductive action :=
| Http (e : env) (r : request)
| Message (wid : nat) (result : jsnum) (now : Z)
| Failure (wid : nat) (message : string).

Definition exit_worker (wid : nat) (w : world) : world :=
  set_workers (alter (λ k, Worker (workerData k) Exited (listeners k)) wid (workers w)) w.

Definition deliver (wid : nat) (cb : closure → M unit) (w : world) : option world :=
  match workers w !! wid with
  | Some (Worker _ Running (Some c)) => Some (cb c (exit_worker wid w)).2
  | _ => None
  end.

(** One step; [None] when the action cannot happen in [w]. *)
Definition step (a : action) (w : world) : option world :=
  match a with
  | Http e r => if fresh_uuid e w then Some (serve e r w).2 else None
  | Message wid result now => deliver wid (λ c, on_message c result now) w
  | Failure wid message => deliver wid (λ c, on_error c message) w
  end.

Fixpoint run (acts : list action) (w : world) : option world :=
  match acts with
  | [] => Some w
  | a :: acts' => w' ← step a w; run acts' w'
  end.

End App.

(** ** The worker, [src/worker.ts]

    The arithmetic of doubles and [Math.sqrt], [Math.sin] belong to the
    platform; [of_Z i] is the counter [i] as a number. *)

Section Worker.

Context {number : Type}.
Variables (zero : number) (add mul : number → number → number).
Variables (Math_sqrt Math_sin : number → number) (of_Z : Z → number).

(** [for (let i = ...; i < iterations; i++) result += ...] *)
Equations? loop (iterations i : Z) (result : number) : number
  by wf (Z.to_nat (iterations - i)) lt :=
  loop iterations i result with Z_lt_dec i iterations := {
    | left _ =>
        loop iterations (i + 1)
          (add result (mul (Math_sqrt (of_Z i)) (Math_sin (of_Z i))));
    | right _ => result
  }.
Proof. lia. Qed.

Definition heavyComputation (iterations : Z) : number :=
  loop iterations 0 zero.

(** The sum as the specification words it: the terms for i = 0, ...,
    N - 1, added up from the left. *)
Definition term (i : Z) : number := mul (Math_sqrt (of_Z i)) (Math_sin (of_Z i)).

Definition running_sum (N : Z) : number :=
  foldl (λ acc i, add acc (term i)) zero (seqZ 0 N).

End Worker.

(** ** Data for the examples *)

(** A stand-in for the pattern of [z.email()] when the model is run: a
    non-empty local part, one at sign, and a domain with a dot in it. *)
Fixpoint has_char (c : ascii) (s : string) : bool :=
  match s with
  | String d s' => Ascii.eqb c d || has_char c s'
  | EmptyString => false
  end.

Fixpoint after_at (s : string) : option string :=
  match s with
  | String c s' => if Ascii.eqb c "@" then Some s' else after_at s'
  | EmptyString => None
  end.

Definition email_like (s : string) : bool :=
  match s, after_at s with
  | String c _, Some domain =>
      negb (Ascii.eqb c "@") && has_char "." domain && negb (has_char "@" domain)
  | _, _ => false
  end.

Definition mario : User.t :=
  User.mk "3f2504e0-4f89-41d3-9a0c-0305e82c3301" "Mario Rossi" "mario@test.com"
    "2024-01-01T00:00:00.000Z" (Some true).

Definition luigi : User.t :=
  User.mk "9b2f7c1e-5a4d-4e8b-8c3a-1f2e3d4c5b6a" "Luigi Verdi" "luigi@test.com"
    "2024-01-02T00:00:00.000Z" None.

Definition peach : User.t :=
  User.mk "0a1b2c3d-4e5f-4a6b-8c7d-9e0f1a2b3c4d" "Peach" "peach@test.com"
    "2024-01-03T00:00:00.000Z" (Some false).

Definition disk_of (users : list User.t) : world := boot (Present (Json users)) true.

(** The same store on a file that cannot be written. *)
Definition read_only_disk_of (users : list User.t) : world :=
  boot (Present (Json users)) false.

Definition env0 : env :=
  Env "7c9e6679-7425-40de-944b-e07fc1f90ae7" "2024-02-01T00:00:00.000Z" 1000.

Definition env1 : env :=
  Env "16fd2706-8baf-433b-82eb-8c7fada847da" "2024-02-01T00:00:05.000Z" 6000.

(** the decimal numeral of 10^n *)
Definition power_of_ten (n : nat) : string :=
  String "1" (string_of_list_ascii (repeat "0"%char n)).

Definition user_body (n e : string) : req_body :=
  Obj (<["name" := JStr n]> (<["email" := JStr e]> ∅)).

Definition task_body (v : jsval) : req_body :=
  Obj (<["iterations" := v]> ∅).

(** A task is submitted and its worker reports 0.25 after 4 ms; then
    the task is polled and a second task is submitted. *)
Definition first_task : list action :=
  [Http env0 (POST_tasks_heavy (task_body (JNum (Finite 5))));
   Message 0%nat (Finite (1 # 4)) 1004].

Definition and_then : list action :=
  [Http env1 (GET_tasks_id (randomUUID env0));
   Http env1 (POST_tasks_heavy (task_body (JNum (Finite 7))));
   Failure 1%nat "out of memory"].

Definition env2 : env :=
  Env "6fa459ea-ee8a-4ca4-894e-db77e160355e" "2024-02-01T00:00:09.000Z" 9000.

(** Peach is created, a second user with the email of Mario is refused,
    and Luigi is deleted. *)
Definition user_session : list action :=
  [Http env0 (POST_users (user_body "Peach" "peach@test.com"));
   Http env1 (POST_users (user_body "Mario Bianchi" "mario@test.com"));
   Http env2 (DELETE_users_id (User.id luigi))].

(** ** Vocabulary of the statements *)

Definition active (u : User.t) : bool := bool_decide (User.isActive u = Some true).

Definition has_id (id : string) (u : User.t) : bool := String.eqb (User.id u) id.

Definition has_email (em : string) (u : User.t) : bool := String.eqb (User.email u) em.

(** The page and the limit a query ends up with. *)
Definition effective_page (q : option string) : intnum :=
  let p := or_else (parseInt q) (Whole 1) in if num_lt p (Whole 1) then Whole 1 else p.

Definition effective_limit (q : option string) : intnum :=
  let l := or_else (parseInt q) (Whole 10) in
  if num_lt l (Whole 1) then Whole 10 else l.

(** The numbers a page or a limit can end up as: an integer from 1 on,
    or the positive infinity. *)
Definition at_least_one (x : intnum) : Prop :=
  match x with
  | Whole z => 1 ≤ z
  | Infinite negative => negative = false
  | NotANumber => False
  end.

(** The start index and the end index of a page. *)
Definition startIndex_of (p l : intnum) : intnum := num_mul (num_sub p (Whole 1)) l.

Definition endIndex_of (p l : intnum) : intnum := num_add (startIndex_of p l) l.

(** A number that stands for the integer [n] up to the threshold [T]:
    [n] itself, or, when [n] is [T] or more, some double or infinity
    that is no smaller than [T].  Rounding keeps this relation for
    thresholds up to 2^53, and an array shorter than [T] cannot tell
    such an index from [n]. *)
Definition stands_for (T : Z) (x : intnum) (n : Z) : Prop :=
  x = Whole n
  ∨ (T ≤ n ∧ (x = Infinite false ∨ ∃ v, x = Whole v ∧ T ≤ v)).

(** A read that fails: the file is missing, cannot be read, or holds no
    JSON. *)
Definition read_fails (w : world) : Prop :=
  file w = Absent ∨ file w = Unreadable ∨ file w = Present Unparsable.

(** A name of at least two characters, and an address the pattern
    accepts. *)
Definition valid_name (v : option jsval) : Prop :=
  ∃ s, v = Some (JStr s) ∧ (2 ≤ String.length s)%nat.

Definition valid_email (is_email : string → bool) (v : option jsval) : Prop :=
  ∃ s, v = Some (JStr s) ∧ is_email s = true.

(** A positive integer that does not exceed the bound. *)
Definition valid_iterations (v : option jsval) : Prop :=
  ∃ (q : Q) (k : Z), v = Some (JNum (Finite q)) ∧ Qeq q (inject_Z k) ∧ 0 < k ≤ 1000000.

Definition fields_of (b : req_body) : gmap string jsval :=
  match b with
  | Obj fields => fields
  | NotAnObject => ∅
  end.

(** An issue of a validation error that is about the property [k]. *)
Definition mentions (k : string) (issues : list issue) : Prop :=
  ∃ i, i ∈ issues ∧ path i = [k].

(** The world once a submission of [n] iterations has been accepted. *)
Definition submitted (e : env) (n : jsnum) (w : world) : world :=
  let l := fresh (dom (heap w)) in
  let wid := fresh (dom (workers w)) in
  World (file w) (writable w)
    (<[l := Task.mk (randomUUID e) Status.processing n None None None]> (heap w))
    (<[randomUUID e := l]> (tasks w))
    (<[wid := Worker n Running (Some (Closure l (randomUUID e) (Date_now e)))]>
       (workers w))
    (log w ++ [TasksSet (randomUUID e); NewWorker wid]).

(** What the listener of ["message"] assigns to the task object, and
    what the listener of ["error"] assigns. *)
Definition complete (result : jsnum) (duration : Z) (t : Task.t) : Task.t :=
  Task.mk (Task.taskId t) Status.completed (Task.iterations t)
    (Some result) (Some duration) (Task.error t).

Definition fail (message : string) (t : Task.t) : Task.t :=
  Task.mk (Task.taskId t) Status.error (Task.iterations t)
    (Task.result t) (Task.duration t) (Some message).

(** The world once worker [wid], whose listeners captured [c], has
    reported and its listener has assigned [f] to the task object. *)
Definition delivered (wid : nat) (c : closure) (f : Task.t → Task.t) (w : world) : world :=
  World (file w) (writable w)
    (alter f (c_task c) (heap w))
    (<[c_taskId c := c_task c]> (tasks w))
    (alter (λ k, Worker (workerData k) Exited (listeners k)) wid (workers w))
    (log w ++ [TasksSet (c_taskId c)]).

(** How the record of a task may differ after a step: not at all, or
    it was processing and is now completed, with a result and a
    duration, or in error, with a message. *)
Definition task_step (t t' : Task.t) : Prop :=
  t' = t
  ∨ (Task.status t = Status.processing
     ∧ ((∃ result duration, t' = complete result duration t)
        ∨ (∃ message, t' = fail message t))).

(** A worker that runs and whose listeners captured [c]. *)
Definition live (w : world) (wid : nat) (c : closure) : Prop :=
  ∃ k, workers w !! wid = Some k ∧ thread k = Running ∧ listeners k = Some c.

(** The invariant of the registry: the listeners of a running worker
    hold the object that the map has under their task id, and it is
    processing; no two running workers hold the same object; the map
    has no dangling reference. *)
Definition consistent (w : world) : Prop :=
  (∀ wid c, live w wid c →
     tasks w !! c_taskId c = Some (c_task c)
     ∧ ∃ t, heap w !! c_task c = Some t ∧ Task.status t = Status.processing)
  ∧ (∀ wid1 wid2 c1 c2,
       live w wid1 c1 → live w wid2 c2 → c_task c1 = c_task c2 → wid1 = wid2)
  ∧ (∀ id l, tasks w !! id = Some l → is_Some (heap w !! l)).

(** Two worlds with the same task objects, registry and workers. *)
Definition same_registry (w w' : world) : Prop :=
  heap w' = heap w ∧ tasks w' = tasks w ∧ workers w' = workers w.

(** The requests that only read. *)
Definition is_get (r : request) : bool :=
  match r with
  | GET_health | GET_users_active | GET_users _ _ | GET_users_id _ | GET_tasks_id _ => true
  | POST_users _ | DELETE_users_id _ | POST_tasks_heavy _ => false
  end.

(** The routes under [/users]. *)
Definition users_route (r : request) : bool :=
  match r with
  | GET_users_active | POST_users _ | GET_users _ _ | GET_users_id _
  | DELETE_users_id _ => true
  | GET_health | POST_tasks_heavy _ | GET_tasks_id _ => false
  end.

(** The events that are a lookup and change nothing. *)
Definition is_lookup (ev : event) : bool :=
  match ev with
  | ReadFile | TasksGet _ => true
  | WriteFile | TasksSet _ | NewWorker _ => false
  end.

(** The [data] of a response of [GET /users]. *)
Definition data_of (r : response) : list User.t :=
  match body r with
  | Paginated data _ => data
  | _ => []
  end.

(** How one request changes the stored array: not at all, by one
    record at the end (the created one, which has no [isActive] and an
    email that was not stored), or by the removal of one record. *)
Definition store_change (e : env) (old new : list User.t) : Prop :=
  new = old
  ∨ (∃ n em,
       new = old ++ [User.mk (randomUUID e) n em (toISOString e) None]
       ∧ em ∉ User.email <$> old)
  ∨ (∃ l1 u l2, old = l1 ++ u :: l2 ∧ new = l1 ++ l2).

(** A task record as the registry is meant to hold it under [id]. *)
Definition task_wf (id : string) (t : Task.t) : Prop :=
  Task.taskId t = id
  ∧ valid_iterations (Some (JNum (Task.iterations t)))
  ∧ match Task.status t with
    | Status.processing =>
        Task.result t = None ∧ Task.duration t = None ∧ Task.error t = None
    | Status.completed =>
        is_Some (Task.result t) ∧ is_Some (Task.duration t) ∧ Task.error t = None
    | Status.error =>
        Task.result t = None ∧ Task.duration t = None ∧ is_Some (Task.error t)
    end.

(** Every record of the registry is as [task_wf] says. *)
Definition registry_wf (w : world) : Prop :=
  ∀ id l t, tasks w !! id = Some l → heap w !! l = Some t → task_wf id t.

(** Every id of the registry is of the canonical shape. *)
Definition registry_ids_canonical (w : world) : Prop :=
  ∀ id, is_Some (tasks w !! id) → Regex.test uuidRegex id = true.

(** As many registered ids as task objects and as workers. *)
Definition one_worker_per_task (w : world) : Prop :=
  size (tasks w) = size (heap w) ∧ size (workers w) = size (heap w).

(** * Properties *)

(** ** Reading the store *)

Lemma ret_not_throw {A} (a : A) (e : exn) : @ret A a ≠ throw e.
Proof. intros H. apply (f_equal (λ c, c (boot Absent true))) in H. discriminate. Qed.

Lemma ret_inj {A} (a b : A) : ret a = ret b → a = b.
Proof.
  intros H. apply (f_equal (λ c, c (boot Absent true))) in H.
  unfold ret in H. congruence.
Qed.

Lemma readUsers_eq (w : world) :
  readUsers w = (inr (stored w), emit ReadFile w).
Proof.
  unfold readUsers, try_catch, readFile, bind, tell, stored; simpl.
  destruct (file w) as [| |[|users]]; reflexivity.
Qed.

Lemma read_fails_stored (w : world) : read_fails w → stored w = [].
Proof. unfold stored; intros [-> | [-> | ->]]; reflexivity. Qed.

Lemma find_none_nil {A} (p : A → bool) : List.find p [] = None.
Proof. reflexivity. Qed.

(** ** What each handler computes *)

Section Handlers.

Variable is_email : string → bool.
Variable e : env.

Lemma serve_get_users_active (w : world) :
  serve is_email e GET_users_active w
  = (Response 200 (UserArray (List.filter active (stored w))), emit ReadFile w).
Proof.
  unfold serve, route, get_users_active, try_catch, bind.
  rewrite readUsers_eq. reflexivity.
Qed.

Lemma serve_get_users (q_page q_limit : option string) (w : world) :
  let p := effective_page q_page in
  let l := effective_limit q_limit in
  let reversed := reverse (stored w) in
  serve is_email e (GET_users q_page q_limit) w
  = (Response 200
       (Paginated (slice (startIndex_of p l) (endIndex_of p l) reversed)
          (Pagination p l (Z.of_nat (length reversed))
             (Math_ceil_quotient (Z.of_nat (length reversed)) l))),
     emit ReadFile w).
Proof.
  unfold serve, route, get_users, try_catch, bind.
  rewrite readUsers_eq. reflexivity.
Qed.

Lemma serve_get_users_id (id : string) (w : world) :
  serve is_email e (GET_users_id id) w
  = if Regex.test uuidRegex id then
      (match List.find (has_id id) (stored w) with
       | Some user => Response 200 (OneUser user)
       | None => Response 404 (ErrorMsg "User not found")
       end, emit ReadFile w)
    else (Response 404 (ErrorMsg "User not found"), w).
Proof.
  unfold serve, route, get_users_id, try_catch, bind.
  destruct (Regex.test uuidRegex id); [|reflexivity].
  cbn [negb]. rewrite readUsers_eq.
  fold (has_id id). destruct (List.find _ _); reflexivity.
Qed.

Lemma serve_delete_users_id (id : string) (w : world) :
  serve is_email e (DELETE_users_id id) w
  = if Regex.test uuidRegex id then
      let i := findIndex (has_id id) (stored w) in
      if i =? -1 then (Response 404 (ErrorMsg "User not found"), emit ReadFile w)
      else if writable w then
        (Response 204 NoBody,
         set_file (Present (Json (splice i 1 (stored w))))
           (emit WriteFile (emit ReadFile w)))
      else (Response 500 (ErrorMsg "Internal server error"),
            emit WriteFile (emit ReadFile w))
    else (Response 404 (ErrorMsg "User not found"), w).
Proof.
  unfold serve, route, delete_users_id, try_catch, bind.
  destruct (Regex.test uuidRegex id); [|reflexivity].
  cbn [negb]. rewrite readUsers_eq. fold (has_id id).
  cbv zeta. destruct (findIndex _ _ =? -1); [reflexivity|].
  unfold writeUsers, writeFile, bind, tell; simpl.
  destruct (writable w); reflexivity.
Qed.

(** *** Validation of a user *)

Lemma string_min2_inr (v : option jsval) (s : string) :
  Zod.string_ [Zod.min_length 2] v = inr s ↔ v = Some (JStr s) ∧ (2 ≤ String.length s)%nat.
Proof.
  unfold Zod.string_, Zod.run_checks, Zod.min_length; cbn -[Nat.leb].
  destruct v as [[| | |t| |]|]; try (split; [discriminate | intros [? _]; discriminate]).
  destruct (Nat.leb_spec 2 (String.length t)); cbn -[Nat.leb].
  - split; [intros [= ->]; auto | intros [[= ->] _]; reflexivity].
  - split; [discriminate | intros [[= ->] ?]; lia].
Qed.

Lemma string_email_inr (v : option jsval) (s : string) :
  Zod.string_ [Zod.email_format is_email] v = inr s ↔ v = Some (JStr s) ∧ is_email s = true.
Proof.
  unfold Zod.string_, Zod.run_checks, Zod.email_format; simpl.
  destruct v as [[| | |t| |]|]; try (split; [discriminate | intros [? _]; discriminate]).
  destruct (is_email t) eqn:Ht; simpl.
  - split; [intros [= ->]; auto | intros [[= ->] _]; reflexivity].
  - split; [discriminate | intros [[= ->] ?]; congruence].
Qed.

Lemma string_inl_nonempty (cs : list (Zod.check string)) (v : option jsval) codes :
  Zod.string_ cs v = inl codes → codes ≠ [].
Proof.
  unfold Zod.string_. destruct v as [[| | |t| |]|]; try (intros [= <-]; discriminate).
  destruct (Zod.run_checks cs t); [discriminate | intros [= <-]; discriminate].
Qed.

Lemma at_key_mentions {A} (k : string) (r : list issue_code + A) :
  (∀ a, r ≠ inr a) → (∀ codes, r = inl codes → codes ≠ []) →
  mentions k (Zod.at_key k r).
Proof.
  intros Hr Hne. destruct r as [codes|a]; [|destruct (Hr a); reflexivity].
  destruct codes as [|c codes]; [destruct (Hne [] eq_refl); reflexivity|].
  exists (Issue [k] c). split; [simpl; left | reflexivity].
Qed.

Lemma UserSchema_parse_valid (fields : gmap string jsval) (n em : string) :
  fields !! "name" = Some (JStr n) → (2 ≤ String.length n)%nat →
  fields !! "email" = Some (JStr em) → is_email em = true →
  UserSchema_parse is_email (Obj fields) = ret {| name := n; email := em |}.
Proof.
  intros Hn Hlen He Hem. unfold UserSchema_parse.
  assert (H1 : Zod.string_ [Zod.min_length 2] (fields !! "name") = inr n)
    by (apply string_min2_inr; auto).
  assert (H2 : Zod.string_ [Zod.email_format is_email] (fields !! "email") = inr em)
    by (apply string_email_inr; auto).
  rewrite H1, H2. reflexivity.
Qed.

Lemma mentions_app (k : string) (xs ys : list issue) :
  mentions k xs ∨ mentions k ys → mentions k (xs ++ ys).
Proof.
  intros [[i [Hi Hp]]|[i [Hi Hp]]]; exists i; rewrite elem_of_app; auto.
Qed.

Lemma mentions_nonempty (k : string) (xs : list issue) : mentions k xs → xs ≠ [].
Proof. intros [i [Hi _]] ->. inversion Hi. Qed.

Lemma name_issue (v : option jsval) :
  ¬ valid_name v → mentions "name" (Zod.at_key "name" (Zod.string_ [Zod.min_length 2] v)).
Proof.
  intros Hv. apply at_key_mentions.
  - intros s Hs. apply string_min2_inr in Hs. apply Hv. exists s. exact Hs.
  - intros codes. apply string_inl_nonempty.
Qed.

Lemma email_issue (v : option jsval) :
  ¬ valid_email is_email v →
  mentions "email" (Zod.at_key "email" (Zod.string_ [Zod.email_format is_email] v)).
Proof.
  intros Hv. apply at_key_mentions.
  - intros s Hs. apply string_email_inr in Hs. apply Hv. exists s. exact Hs.
  - intros codes. apply string_inl_nonempty.
Qed.

Lemma UserSchema_parse_invalid (b : req_body) :
  ¬ valid_name (fields_of b !! "name") ∨ ¬ valid_email is_email (fields_of b !! "email") →
  ∃ issues,
    UserSchema_parse is_email b = throw (ZodError issues)
    ∧ issues ≠ []
    ∧ (∀ fields, b = Obj fields →
         (¬ valid_name (fields !! "name") → mentions "name" issues)
         ∧ (¬ valid_email is_email (fields !! "email") → mentions "email" issues)).
Proof.
  intros Hbad. destruct b as [|fields]; simpl in *.
  { eexists; split; [reflexivity|]. split; [discriminate|]. intros ? [=]. }
  exists (Zod.at_key "name" (Zod.string_ [Zod.min_length 2] (fields !! "name"))
          ++ Zod.at_key "email"
               (Zod.string_ [Zod.email_format is_email] (fields !! "email"))).
  split; [|split].
  - destruct (Zod.string_ [Zod.min_length 2] (fields !! "name")) as [cn|n] eqn:Hn;
      destruct (Zod.string_ [Zod.email_format is_email] (fields !! "email"))
        as [ce|em] eqn:He; try reflexivity.
    exfalso. apply string_min2_inr in Hn. apply string_email_inr in He.
    destruct Hbad as [H|H]; apply H; [exists n | exists em]; tauto.
  - destruct Hbad as [H|H].
    + apply (mentions_nonempty "name"), mentions_app. left. apply name_issue, H.
    + apply (mentions_nonempty "email"), mentions_app. right. apply email_issue, H.
  - intros fields' [= <-]. split; intros H; apply mentions_app.
    + left. apply name_issue, H.
    + right. apply email_issue, H.
Qed.

(** [POST /users], once the body is known to pass or to fail. *)
Lemma serve_post_users_valid (b : req_body) (n em : string) (w : world) :
  UserSchema_parse is_email b = ret {| name := n; email := em |} →
  serve is_email e (POST_users b) w
  = if some (has_email em) (stored w) then
      (Response 409 (ErrorMsg "Email already exists"), emit ReadFile w)
    else
      let newUser := User.mk (randomUUID e) n em (toISOString e) None in
      if writable w then
        (Response 201 (OneUser newUser),
         set_file (Present (Json (stored w ++ [newUser])))
           (emit WriteFile (emit ReadFile w)))
      else (Response 500 (ErrorMsg "Internal server error"),
            emit WriteFile (emit ReadFile w)).
Proof.
  intros Hb. unfold serve, route, post_users, try_catch, bind.
  rewrite Hb. unfold ret at 1. rewrite readUsers_eq. cbn [email name].
  fold (has_email em). destruct (some _ _); [reflexivity|].
  unfold writeUsers, writeFile, bind, tell; simpl.
  destruct (writable w); reflexivity.
Qed.

Lemma serve_post_users_invalid (b : req_body) (issues : list issue) (w : world) :
  UserSchema_parse is_email b = throw (ZodError issues) →
  serve is_email e (POST_users b) w = (Response 400 (Issues issues), w).
Proof.
  intros Hb. unfold serve, route, post_users, try_catch, bind.
  rewrite Hb. reflexivity.
Qed.

End Handlers.

(** ** Arithmetic and arrays *)

Lemma Math_ceil_div_eq (a b : Z) : 0 < b → Math_ceil_div a b = - ((- a) / b).
Proof.
  intros Hb. destruct b as [|p|p]; try lia.
  unfold Math_ceil_div, Qceiling, Qfloor, Qdiv, Qmult, Qinv, Qopp, inject_Z; simpl.
  rewrite Z.mul_1_r. reflexivity.
Qed.

Lemma Math_ceil_div_0 (b : Z) : 0 < b → Math_ceil_div 0 b = 0.
Proof.
  intros Hb. rewrite Math_ceil_div_eq by exact Hb.
  change (- 0) with 0. rewrite Z.div_0_l by lia. reflexivity.
Qed.

(** [Math.ceil(a / b)] is the least integer [c] with [a ≤ c * b]. *)
Lemma Math_ceil_div_spec (a b : Z) :
  0 < b → let c := Math_ceil_div a b in (c - 1) * b < a ≤ c * b.
Proof.
  intros Hb c. subst c. rewrite Math_ceil_div_eq by assumption.
  pose proof (Z.div_mod (- a) b ltac:(lia)) as Hdm.
  pose proof (Z.mod_pos_bound (- a) b Hb) as Hm.
  nia.
Qed.

(** *** Doubles *)

Lemma round_double_exact (n : Z) : Z.abs n < 2 ^ 53 → round_double n = Whole n.
Proof.
  intros H. unfold round_double.
  destruct (Z.ltb_spec (Z.abs n) (2 ^ 53)); [reflexivity|lia].
Qed.

(** Rounding does not take a number below a threshold that is a double
    itself: from [T ≤ 2^53] on, the double of [n ≥ T] is [T] or more. *)
Lemma round_double_ge (T n : Z) :
  T ≤ 2 ^ 53 → 0 ≤ n → T ≤ n →
  round_double n = Infinite false ∨ ∃ v, round_double n = Whole v ∧ T ≤ v.
Proof.
  intros HT H0 Hn. unfold round_double. rewrite (Z.abs_eq n) by exact H0.
  destruct (Z.ltb_spec n (2 ^ 53)) as [Hs|Hb].
  - right. exists n. split; [reflexivity|exact Hn].
  - assert (Hlog : 53 ≤ Z.log2 n) by (apply Z.log2_le_pow2; lia).
    set (s := Z.log2 n - 52). assert (Hs : 1 ≤ s) by lia.
    assert (Hpow : 2 ^ Z.log2 n = 2 ^ 52 * 2 ^ s).
    { rewrite <- Z.pow_add_r by lia. f_equal. lia. }
    assert (H2s : 2 ≤ 2 ^ s).
    { change 2 with (2 ^ 1) at 1. apply Z.pow_le_mono_r; lia. }
    assert (Hq : 2 ^ 52 ≤ n / 2 ^ s).
    { apply Z.div_le_lower_bound; [lia|].
      rewrite Z.mul_comm, <- Hpow. apply Z.log2_spec. lia. }
    cbv zeta.
    match goal with
    | |- context [if ?c then n / 2 ^ s + 1 else n / 2 ^ s] =>
        set (q' := if c then n / 2 ^ s + 1 else n / 2 ^ s)
    end.
    assert (Hq' : 2 ^ 52 ≤ q').
    { subst q'. destruct (_ || _); lia. }
    assert (Hv : 2 ^ 53 ≤ q' * 2 ^ s).
    { change (2 ^ 53) with (2 ^ 52 * 2). apply Z.mul_le_mono_nonneg; lia. }
    destruct (Z.leb_spec (2 ^ 1024) (q' * 2 ^ s)).
    + left. f_equal. apply Z.ltb_ge. exact H0.
    + right. exists (Z.sgn n * (q' * 2 ^ s)). split; [reflexivity|].
      rewrite Z.sgn_pos by lia. lia.
Qed.

(** The integers that are read as an infinity are those from
    2^1024 - 2^970 on, the middle between the largest double and
    2^1024. *)
Lemma round_double_infinite (n : Z) :
  0 ≤ n → (round_double n = Infinite false ↔ 2 ^ 1024 - 2 ^ 970 ≤ n).
Proof.
  intros H0. unfold round_double. rewrite (Z.abs_eq n) by exact H0.
  destruct (Z.ltb_spec n (2 ^ 53)) as [Hs|Hb].
  { split; [discriminate|]. intros H. exfalso.
    assert (2 ^ 53 < 2 ^ 1024 - 2 ^ 970) by (vm_compute; reflexivity). lia. }
  assert (Hlog : 53 ≤ Z.log2 n) by (apply Z.log2_le_pow2; lia).
  pose proof (Z.log2_spec n ltac:(lia)) as [Hlo Hhi].
  set (k := Z.log2 n) in *. set (s := k - 52).
  assert (Hs : 1 ≤ s) by lia.
  assert (Hlo' : 2 ^ 52 * 2 ^ s ≤ n).
  { rewrite <- Z.pow_add_r by lia. replace (52 + s) with k by lia. exact Hlo. }
  assert (Hhi' : n < 2 ^ 53 * 2 ^ s).
  { rewrite <- Z.pow_add_r by lia. replace (53 + s) with (Z.succ k) by lia. exact Hhi. }
  assert (Hpos : 0 < 2 ^ s) by (apply Z.pow_pos_nonneg; lia).
  pose proof (Z.div_mod n (2 ^ s) ltac:(lia)) as Hdm.
  pose proof (Z.mod_pos_bound n (2 ^ s) Hpos) as Hr.
  set (q := n / 2 ^ s) in *. set (r := n mod 2 ^ s) in *.
  assert (Hq : 2 ^ 52 ≤ q < 2 ^ 53) by nia.
  assert (Hhalf : 2 * 2 ^ (s - 1) = 2 ^ s).
  { rewrite <- Z.pow_succ_r by lia. f_equal. lia. }
  cbv zeta.
  match goal with
  | |- context [if ?c then q + 1 else q] => set (up := c)
  end.
  destruct (Z.leb_spec (2 ^ 1024) ((if up then q + 1 else q) * 2 ^ s)) as [Hinf|Hfin].
  - split; [intros _|intros _; f_equal; apply Z.ltb_ge; exact H0].
    destruct (Z.le_gt_cases 972 s) as [Hbig|Hsmall].
    + assert (2 ^ 972 ≤ 2 ^ s) by (apply Z.pow_le_mono_r; lia).
      assert (2 ^ 52 * 2 ^ 972 = 2 ^ 1024) by (vm_compute; reflexivity). nia.
    + assert (Hs971 : s = 971).
      { destruct (Z.le_gt_cases 971 s); [lia|]. exfalso.
        assert (2 ^ s ≤ 2 ^ 970) by (apply Z.pow_le_mono_r; lia).
        assert (2 ^ 53 * 2 ^ 970 < 2 ^ 1024) by (vm_compute; reflexivity).
        destruct up; nia. }
      subst up. rewrite Hs971 in *.
      change (2 ^ (971 - 1)) with (2 ^ 970) in *.
      assert (E1 : 2 ^ 1024 = 2 ^ 53 * 2 ^ 971) by (vm_compute; reflexivity).
      assert (E2 : 2 ^ 971 = 2 * 2 ^ 970) by (vm_compute; reflexivity).
      destruct (Z.ltb_spec (2 ^ 970) r); cbn [orb] in Hinf; [nia|].
      destruct (Z.eqb_spec r (2 ^ 970)); cbn [andb] in Hinf; [|nia].
      destruct (Z.odd q); nia.
  - split; [discriminate|]. intros Hge. exfalso.
    assert (E1 : 2 ^ 1024 = 2 ^ 53 * 2 ^ 971) by (vm_compute; reflexivity).
    assert (E2 : 2 ^ 971 = 2 * 2 ^ 970) by (vm_compute; reflexivity).
    destruct (Z.le_gt_cases 972 s) as [Hbig|Hsmall].
    + assert (2 ^ 972 ≤ 2 ^ s) by (apply Z.pow_le_mono_r; lia).
      assert (2 ^ 52 * 2 ^ 972 = 2 ^ 1024) by (vm_compute; reflexivity).
      destruct up; nia.
    + assert (Hs971 : s = 971).
      { destruct (Z.le_gt_cases 971 s); [lia|]. exfalso.
        assert (2 ^ s ≤ 2 ^ 970) by (apply Z.pow_le_mono_r; lia).
        assert (2 ^ 53 * 2 ^ 970 < 2 ^ 1024 - 2 ^ 970) by (vm_compute; reflexivity).
        nia. }
      subst up. rewrite Hs971 in *.
      change (2 ^ (971 - 1)) with (2 ^ 970) in *.
      assert (Hq53 : q = 2 ^ 53 - 1) by nia.
      assert (Hr970 : 2 ^ 970 ≤ r) by nia.
      assert (Hodd : Z.odd q = true) by (rewrite Hq53; vm_compute; reflexivity).
      rewrite Hodd in Hfin.
      destruct (Z.ltb_spec (2 ^ 970) r); cbn [orb] in Hfin; [nia|].
      destruct (Z.eqb_spec r (2 ^ 970)); cbn [andb] in Hfin; nia.
Qed.

Lemma round_double_finite (n : Z) :
  0 ≤ n → n < 2 ^ 1024 - 2 ^ 970 → round_double n ≠ Infinite false.
Proof. intros H0 Hn H. apply round_double_infinite in H; lia. Qed.

Lemma stands_for_round (T n : Z) : T ≤ 2 ^ 53 → 0 ≤ n → stands_for T (round_double n) n.
Proof.
  intros HT H0. destruct (Z.lt_ge_cases n T) as [Hlt|Hge].
  - left. apply round_double_exact. lia.
  - destruct (Z.lt_ge_cases n (2 ^ 53)) as [Hs|Hb].
    + left. apply round_double_exact. lia.
    + right. split; [exact Hge|]. apply round_double_ge; assumption.
Qed.

Lemma stands_for_pred (T : Z) (x : intnum) (a : Z) :
  T + 1 ≤ 2 ^ 53 → 0 ≤ T → 1 ≤ a → stands_for (T + 1) x a →
  stands_for T (num_sub x (Whole 1)) (a - 1).
Proof.
  intros HT H0 Ha [->|[Hbig [->|(v & -> & Hv)]]].
  - apply stands_for_round; lia.
  - right. split; [lia|]. left. reflexivity.
  - right. split; [lia|]. apply round_double_ge; lia.
Qed.

Lemma stands_for_mul (T : Z) (x y : intnum) (a b : Z) :
  1 ≤ T ≤ 2 ^ 53 → 0 ≤ a → 1 ≤ b → y ≠ Infinite false →
  stands_for T x a → stands_for T y b → stands_for T (num_mul x y) (a * b).
Proof.
  intros HT Ha Hb Hy [->|[Hbx Hx]] [->|[Hby [->|(v & -> & Hv)]]]; try congruence.
  - apply stands_for_round; nia.
  - destruct (Z.eq_dec a 0) as [->|Hne]; [left; reflexivity|].
    right. split; [nia|]. apply round_double_ge; nia.
  - right. split; [nia|]. destruct Hx as [->|(u & -> & Hu)].
    + left. cbn. destruct (Z.eqb_spec b 0); [lia|].
      destruct (Z.ltb_spec b 0); [lia|]. reflexivity.
    + apply round_double_ge; nia.
  - right. split; [nia|]. destruct Hx as [->|(u & -> & Hu)].
    + left. cbn. destruct (Z.eqb_spec v 0); [lia|].
      destruct (Z.ltb_spec v 0); [lia|]. reflexivity.
    + apply round_double_ge; nia.
Qed.

Lemma stands_for_add (T : Z) (x y : intnum) (a b : Z) :
  0 ≤ T ≤ 2 ^ 53 → 0 ≤ a → 0 ≤ b →
  stands_for T x a → stands_for T y b → stands_for T (num_add x y) (a + b).
Proof.
  intros HT Ha Hb [->|[Hbx Hx]] [->|[Hby Hy]].
  - apply stands_for_round; lia.
  - right. split; [lia|]. destruct Hy as [->|(v & -> & Hv)].
    + left. reflexivity.
    + apply round_double_ge; lia.
  - right. split; [lia|]. destruct Hx as [->|(u & -> & Hu)].
    + left. reflexivity.
    + apply round_double_ge; lia.
  - right. split; [lia|].
    destruct Hx as [->|(u & -> & Hu)], Hy as [->|(v & -> & Hv)];
      try (left; reflexivity).
    apply round_double_ge; lia.
Qed.

(** An array shorter than the threshold is cut at [n] by the index that
    stands for [n]. *)
Lemma relative_index_stands_for (T len : Z) (x : intnum) (n : Z) :
  0 ≤ n → 0 ≤ len ≤ T → stands_for T x n → relative_index_num len x = Z.min n len.
Proof.
  intros Hn Hlen [->|[Hbig [->|(v & -> & Hv)]]]; unfold relative_index_num, relative_index.
  - destruct (Z.ltb_spec n 0); lia.
  - lia.
  - destruct (Z.ltb_spec v 0); lia.
Qed.

Lemma slice_window {A} (x y : intnum) (s n : Z) (l : list A) :
  let len := Z.of_nat (length l) in
  0 ≤ s → 0 ≤ n →
  relative_index_num len x = Z.min s len →
  relative_index_num len y = Z.min (s + n) len →
  slice x y l = take (Z.to_nat n) (drop (Z.to_nat s) l).
Proof.
  intros len Hs Hn Hx Hy. unfold slice. fold len. rewrite Hx, Hy.
  destruct (Z.le_gt_cases len s) as [Hge|Hlt].
  - rewrite (Z.min_r s len) by lia. rewrite (Z.min_r (s + n) len) by lia.
    rewrite !drop_ge by (subst len; lia). rewrite !take_nil. reflexivity.
  - rewrite (Z.min_l s len) by lia.
    destruct (Z.le_gt_cases (s + n) len) as [Hin|Hout].
    + rewrite Z.min_l by lia. f_equal. lia.
    + rewrite Z.min_r by lia.
      rewrite !take_ge; [reflexivity | |]; rewrite length_drop; subst len; lia.
Qed.

(** The window of page [P] at limit [L], for numbers that stand for
    [P] and [L], the limit not being an infinity: on an array of fewer
    than 2^53 elements it is the window of the exact [P] and [L]. *)
Lemma page_window_of {A} (p l : intnum) (P L : Z) (lst : list A) :
  1 ≤ P → 1 ≤ L →
  stands_for (2 ^ 53) p P → stands_for (2 ^ 53 - 1) l L → l ≠ Infinite false →
  Z.of_nat (length lst) < 2 ^ 53 →
  slice (startIndex_of p l) (endIndex_of p l) lst
  = take (Z.to_nat L) (drop (Z.to_nat ((P - 1) * L)) lst).
Proof.
  intros HP HL Sp0 Sl Hfin Hlen.
  set (T := 2 ^ 53 - 1) in *.
  assert (HT : 1 ≤ T ≤ 2 ^ 53) by (subst T; lia).
  assert (Sp : stands_for T (num_sub p (Whole 1)) (P - 1)).
  { apply stands_for_pred; try lia. replace (T + 1) with (2 ^ 53) by (subst T; lia).
    exact Sp0. }
  assert (Ss : stands_for T (startIndex_of p l) ((P - 1) * L)).
  { apply stands_for_mul; try assumption; lia. }
  assert (Se : stands_for T (endIndex_of p l) ((P - 1) * L + L)).
  { apply stands_for_add; try assumption; nia. }
  apply slice_window; try nia.
  - apply (relative_index_stands_for T); try assumption; nia.
  - apply (relative_index_stands_for T); try assumption; nia.
Qed.

Lemma page_window {A} (P L : Z) (lst : list A) :
  1 ≤ P → 1 ≤ L → round_double L ≠ Infinite false →
  Z.of_nat (length lst) < 2 ^ 53 →
  slice (startIndex_of (round_double P) (round_double L))
        (endIndex_of (round_double P) (round_double L)) lst
  = take (Z.to_nat L) (drop (Z.to_nat ((P - 1) * L)) lst).
Proof.
  intros HP HL Hfin Hlen.
  apply page_window_of; try assumption; apply stands_for_round; lia.
Qed.

(** With a page that is an infinity the window lies beyond every
    record. *)
Lemma page_window_infinite_page {A} (L : Z) (lst : list A) :
  1 ≤ L →
  slice (startIndex_of (Infinite false) (Whole L)) (endIndex_of (Infinite false) (Whole L)) lst
  = [].
Proof.
  intros HL. unfold endIndex_of, startIndex_of, slice. cbn.
  destruct (Z.eqb_spec L 0); [lia|]. destruct (Z.ltb_spec L 0); [lia|].
  cbn. rewrite Z.sub_diag. reflexivity.
Qed.

(** With a limit that is an infinity no page holds a record. *)
Lemma page_window_infinite {A} (p : intnum) (l : list A) :
  at_least_one p →
  slice (startIndex_of p (Infinite false)) (endIndex_of p (Infinite false)) l = [].
Proof.
  intros Hp. unfold endIndex_of, startIndex_of, slice.
  destruct p as [z| [|] |]; cbn in Hp; try done.
  - destruct (Z.eq_dec z 1) as [->|Hne].
    + cbn. rewrite Z.sub_diag. reflexivity.
    + destruct (round_double_ge 1 (z - 1)) as [E|(v & E & Hv)]; try lia;
        cbn [num_sub]; rewrite E; cbn [num_mul].
      * cbn. rewrite Z.sub_diag. reflexivity.
      * destruct (Z.eqb_spec v 0); [lia|]. destruct (Z.ltb_spec v 0); [lia|].
        cbn. rewrite Z.sub_diag. reflexivity.
  - cbn. rewrite Z.sub_diag. reflexivity.
Qed.

(** [pages] for a limit that is read as a double: [ceil(N / L)], the
    least [c] with [N ≤ c * L], also when the double is not [L]
    itself, an array being shorter than 2^53. *)
Lemma pages_of_limit (N L : Z) :
  0 ≤ N < 2 ^ 53 → 1 ≤ L → round_double L ≠ Infinite false →
  Math_ceil_quotient N (round_double L) = Whole (Math_ceil_div N L).
Proof.
  intros HN HL Hfin.
  destruct (Z.lt_ge_cases L (2 ^ 53)) as [Hs|Hb].
  - rewrite round_double_exact by lia. cbn.
    destruct (Z.eqb_spec L 0); [lia|]. reflexivity.
  - destruct (round_double_ge (2 ^ 53) L) as [E|(v & E & Hv)]; try lia; [congruence|].
    rewrite E. cbn. destruct (Z.eqb_spec v 0); [lia|]. f_equal.
    pose proof (Math_ceil_div_spec N v ltac:(lia)) as Hc. cbv zeta in Hc.
    pose proof (Math_ceil_div_spec N L ltac:(lia)) as Hd. cbv zeta in Hd.
    set (c := Math_ceil_div N v) in *. set (d := Math_ceil_div N L) in *.
    assert (c = 0 ∨ c = 1) as [Ec|Ec] by nia;
      assert (d = 0 ∨ d = 1) as [Ed|Ed] by nia; nia.
Qed.

(** *** The page and the limit of a query *)

Lemma effective_page_at_least_one (q : option string) : at_least_one (effective_page q).
Proof.
  unfold effective_page, or_else. cbv zeta.
  destruct (parseInt q) as [z|[|]|]; cbn; try done.
  destruct (Z.eqb_spec z 0); cbn; [lia|].
  destruct (Z.ltb_spec z 1); cbn; lia.
Qed.

Lemma effective_limit_at_least_one (q : option string) : at_least_one (effective_limit q).
Proof.
  unfold effective_limit, or_else. cbv zeta.
  destruct (parseInt q) as [z|[|]|]; cbn; try done.
  destruct (Z.eqb_spec z 0); cbn; [lia|].
  destruct (Z.ltb_spec z 1); cbn; lia.
Qed.

(** A number from 1 on is taken as it is read. *)
Lemma or_else_at_least_one (x d : intnum) :
  at_least_one x →
  (let y := or_else x d in if num_lt y (Whole 1) then d else y) = x.
Proof.
  destruct x as [z|[|]|]; cbn; try done. intros Hz.
  destruct (Z.eqb_spec z 0); [lia|]. cbn.
  destruct (Z.ltb_spec z 1); [lia|]. reflexivity.
Qed.

Lemma round_double_at_least_one (n : Z) : 1 ≤ n → at_least_one (round_double n).
Proof.
  intros Hn. destruct (round_double_ge 1 n) as [E|(v & E & Hv)]; try lia;
    rewrite E; cbn; [reflexivity|exact Hv].
Qed.

Lemma parseInt_round (q : option string) (n : Z) :
  parseInt_value q = Some n → parseInt q = round_double n.
Proof. intros H. unfold parseInt. rewrite H. reflexivity. Qed.

Lemma effective_page_value (q : option string) (P : Z) :
  parseInt_value q = Some P → 1 ≤ P → effective_page q = round_double P.
Proof.
  intros HP H1. unfold effective_page. rewrite (parseInt_round q P HP).
  apply (or_else_at_least_one _ (Whole 1)), round_double_at_least_one, H1.
Qed.

Lemma effective_limit_value (q : option string) (L : Z) :
  parseInt_value q = Some L → 1 ≤ L → effective_limit q = round_double L.
Proof.
  intros HL H1. unfold effective_limit. rewrite (parseInt_round q L HL).
  apply (or_else_at_least_one _ (Whole 10)), round_double_at_least_one, H1.
Qed.

Lemma Math_ceil_quotient_0 (l : intnum) : at_least_one l → Math_ceil_quotient 0 l = Whole 0.
Proof.
  destruct l as [z|[|]|]; cbn; try done. intros Hz.
  destruct (Z.eqb_spec z 0); [lia|]. rewrite Math_ceil_div_0 by lia. reflexivity.
Qed.

Lemma findIndex_from_first {A} (p : A → bool) (l1 l2 : list A) (x : A) (i : Z) :
  Forall (λ y, p y = false) l1 → p x = true →
  findIndex_from p (l1 ++ x :: l2) i = i + Z.of_nat (length l1).
Proof.
  intros Hl1 Hx. revert i. induction Hl1 as [|y l1 Hy _ IH]; intros i; simpl.
  - rewrite Hx. lia.
  - rewrite Hy, IH. lia.
Qed.

Lemma findIndex_from_none {A} (p : A → bool) (l : list A) (i : Z) :
  Forall (λ y, p y = false) l → findIndex_from p l i = -1.
Proof.
  intros Hl. revert i. induction Hl as [|y l Hy _ IH]; intros i; simpl.
  - reflexivity.
  - rewrite Hy. apply IH.
Qed.

Lemma findIndex_from_range {A} (p : A → bool) (l : list A) (i : Z) :
  0 ≤ i → findIndex_from p l i = -1 ∨ i ≤ findIndex_from p l i.
Proof.
  revert i. induction l as [|x l IH]; intros i Hi; simpl.
  - left; reflexivity.
  - destruct (p x); [right; lia|]. destruct (IH (i + 1)) as [H|H]; [lia|auto|right; lia].
Qed.

Lemma findIndex_from_minus_one {A} (p : A → bool) (l : list A) (i : Z) :
  0 ≤ i → findIndex_from p l i = -1 → Forall (λ y, p y = false) l.
Proof.
  revert i. induction l as [|x l IH]; intros i Hi H; simpl in *.
  - constructor.
  - destruct (p x) eqn:Hx; [lia|]. constructor; [exact Hx|]. apply (IH (i + 1)); [lia|exact H].
Qed.

Lemma splice_one {A} (l1 l2 : list A) (x : A) :
  splice (Z.of_nat (length l1)) 1 (l1 ++ x :: l2) = l1 ++ l2.
Proof.
  unfold splice, relative_index. rewrite length_app; simpl.
  destruct (Z.ltb_spec (Z.of_nat (length l1)) 0); [lia|].
  rewrite Z.min_l by lia. rewrite Z.max_l by lia. rewrite Z.min_l by lia.
  rewrite Nat2Z.id.
  replace (Z.to_nat (Z.of_nat (length l1) + 1)) with (length l1 + 1)%nat by lia.
  rewrite take_app_length.
  rewrite drop_app_add'; [|reflexivity]. reflexivity.
Qed.

Lemma find_none_iff {A} (p : A → bool) (l : list A) :
  List.find p l = None ↔ Forall (λ y, p y = false) l.
Proof.
  induction l as [|x l IH]; simpl.
  - split; [constructor | reflexivity].
  - destruct (p x) eqn:Hx.
    + split; [discriminate | intros H; inversion H; congruence].
    + rewrite IH. split; [intros H; constructor; assumption | intros H; inversion H; assumption].
Qed.

Lemma has_id_false (id : string) (l : list User.t) :
  id ∉ User.id <$> l ↔ Forall (λ u, has_id id u = false) l.
Proof.
  unfold has_id. induction l as [|u l IH]; simpl.
  - split; [constructor | intros _ H; inversion H].
  - rewrite not_elem_of_cons, IH. split.
    + intros [Hne Hl]. constructor; [|exact Hl].
      apply String.eqb_neq. congruence.
    + intros H. inversion H as [|? ? Hu Hl]; subst. split; [|exact Hl].
      apply String.eqb_neq in Hu. congruence.
Qed.

Lemma has_email_false (em : string) (l : list User.t) :
  em ∉ User.email <$> l ↔ some (has_email em) l = false.
Proof.
  unfold some, has_email. induction l as [|u l IH]; simpl.
  - split; [reflexivity | intros _ H; inversion H].
  - rewrite not_elem_of_cons, IH, orb_false_iff, String.eqb_neq.
    split; intros [H1 H2]; split; congruence.
Qed.

Lemma filter_active (l : list User.t) :
  List.filter active l = filter (λ u, User.isActive u = Some true) l.
Proof.
  induction l as [|u l IH]; [reflexivity|].
  simpl. rewrite filter_cons, IH. unfold active.
  destruct (decide (User.isActive u = Some true)) as [H|H].
  - rewrite bool_decide_eq_true_2 by exact H. reflexivity.
  - rewrite bool_decide_eq_false_2 by exact H. reflexivity.
Qed.

(** ** The store *)

(** C10. When reading the users file fails (file missing, I/O error or
    unparsable JSON), [readUsers] yields the empty array and throws
    nothing; so [GET /users] answers 200 with empty data, [GET
    /users/active] answers 200 with an empty array, and [GET] and
    [DELETE /users/:id] answer 404: no read failure surfaces as a
    500. *)
Theorem read_failure_is_empty_store
    (is_email : string → bool) (e : env) (w : world)
    (q_page q_limit : option string) (id : string) :
  read_fails w →
  (readUsers w).1 = inr []
  ∧ (serve is_email e (GET_users q_page q_limit) w).1
    = Response 200
        (Paginated [] (Pagination (effective_page q_page) (effective_limit q_limit) 0 (Whole 0)))
  ∧ (serve is_email e GET_users_active w).1 = Response 200 (UserArray [])
  ∧ (serve is_email e (GET_users_id id) w).1 = Response 404 (ErrorMsg "User not found")
  ∧ (serve is_email e (DELETE_users_id id) w).1 = Response 404 (ErrorMsg "User not found")
  ∧ Forall (λ r, status (serve is_email e r w).1 ≠ 500)
      [GET_users q_page q_limit; GET_users_active; GET_users_id id; DELETE_users_id id].
Proof.
  intros Hfail. pose proof (read_fails_stored w Hfail) as Hs.
  assert (Hlist : (serve is_email e (GET_users q_page q_limit) w).1
    = Response 200
        (Paginated [] (Pagination (effective_page q_page) (effective_limit q_limit) 0 (Whole 0)))).
  { rewrite serve_get_users, Hs. change (reverse (@nil User.t)) with (@nil User.t).
    cbn [fst length Z.of_nat].
    rewrite Math_ceil_quotient_0 by apply effective_limit_at_least_one.
    unfold slice. cbn [length]. rewrite drop_nil, take_nil. reflexivity. }
  assert (Hact : (serve is_email e GET_users_active w).1 = Response 200 (UserArray [])).
  { rewrite serve_get_users_active, Hs. reflexivity. }
  assert (Hget : (serve is_email e (GET_users_id id) w).1
                 = Response 404 (ErrorMsg "User not found")).
  { rewrite serve_get_users_id, Hs. destruct (Regex.test uuidRegex id); reflexivity. }
  assert (Hdel : (serve is_email e (DELETE_users_id id) w).1
                 = Response 404 (ErrorMsg "User not found")).
  { rewrite serve_delete_users_id, Hs. destruct (Regex.test uuidRegex id); reflexivity. }
  split; [rewrite readUsers_eq, Hs; reflexivity|].
  do 4 (split; [assumption|]).
  repeat constructor; rewrite ?Hlist, ?Hact, ?Hget, ?Hdel; discriminate.
Qed.

Lemma read_failure_is_empty_store_witness :
  read_fails (boot Absent true)
  ∧ (serve email_like env0 (GET_users (Some "2") None) (boot Absent true)).1
    = Response 200 (Paginated [] (Pagination (Whole 2) (Whole 10) 0 (Whole 0))).
Proof.
  split; [left; reflexivity|].
  apply (read_failure_is_empty_store email_like env0 (boot Absent true)
           (Some "2") None "abc").
  left; reflexivity.
Defined.

(** C8. [GET /users/active] returns exactly the stored users whose
    [isActive] is [true], in the stored order: neither reversed nor
    paginated. *)
Theorem list_active (is_email : string → bool) (e : env) (w : world) :
  ∃ users,
    (serve is_email e GET_users_active w).1 = Response 200 (UserArray users)
    ∧ users = filter (λ u, User.isActive u = Some true) (stored w)
    ∧ users `sublist_of` stored w
    ∧ (∀ u, u ∈ users ↔ u ∈ stored w ∧ User.isActive u = Some true)
    ∧ stored (serve is_email e GET_users_active w).2 = stored w.
Proof.
  exists (filter (λ u, User.isActive u = Some true) (stored w)).
  rewrite serve_get_users_active, filter_active. cbn [fst snd].
  split; [reflexivity|]. split; [reflexivity|].
  split; [apply sublist_filter|].
  split; [|reflexivity].
  intros u. rewrite list_elem_of_filter. tauto.
Qed.

(** C1 (amended). With [N] users stored and a query [page=P],
    [limit=L] for integers [P ≥ 1] and [L ≥ 1], the limit below
    2^1024 - 2^970, from where on [parseInt] reads [Infinity],
    [GET /users] returns
    [min(L, max(0, N - (P-1)L))] records, which are the window of the
    reversed store (newest first) that starts at [(P-1)L], and
    [pagination.pages] is [ceil(N/L)]: the least integer whose
    multiple by [L] reaches [N].  The page and the limit are echoed as
    the doubles they are read as.  [N] is the length of an array, so
    below 2^32. *)
Theorem list_page
    (is_email : string → bool) (e : env) (w : world)
    (q_page q_limit : option string) (P L : Z) :
  parseInt_value q_page = Some P → parseInt_value q_limit = Some L → 1 ≤ P → 1 ≤ L →
  L < 2 ^ 1024 - 2 ^ 970 →
  let N := Z.of_nat (length (stored w)) in
  N < 2 ^ 32 →
  ∃ data pg,
    (serve is_email e (GET_users q_page q_limit) w).1 = Response 200 (Paginated data pg)
    ∧ Z.of_nat (length data) = Z.min L (Z.max 0 (N - (P - 1) * L))
    ∧ data = take (Z.to_nat L) (drop (Z.to_nat ((P - 1) * L)) (reverse (stored w)))
    ∧ page pg = parseInt q_page ∧ limit pg = parseInt q_limit ∧ total pg = N
    ∧ ∃ c, pages pg = Whole c ∧ (c - 1) * L < N ≤ c * L.
Proof.
  intros HP HL H1P H1L Hlt N HN.
  assert (Hfin : round_double L ≠ Infinite false) by (apply round_double_finite; lia).
  rewrite serve_get_users. cbv zeta.
  rewrite (effective_page_value _ _ HP H1P), (effective_limit_value _ _ HL H1L).
  rewrite (parseInt_round _ _ HP), (parseInt_round _ _ HL).
  rewrite length_reverse. fold N. cbn [fst].
  assert (Hdata : slice (startIndex_of (round_double P) (round_double L))
                    (endIndex_of (round_double P) (round_double L)) (reverse (stored w))
                  = take (Z.to_nat L) (drop (Z.to_nat ((P - 1) * L)) (reverse (stored w)))).
  { apply page_window; try assumption. rewrite length_reverse. fold N. lia. }
  assert (Hc : Math_ceil_quotient N (round_double L) = Whole (Math_ceil_div N L)).
  { apply pages_of_limit; [subst N; lia | exact H1L | exact Hfin]. }
  do 2 eexists. split; [reflexivity|].
  rewrite Hdata. cbn [page limit total pages].
  split; [|split; [reflexivity|]].
  - rewrite length_take, length_drop, length_reverse. fold N. nia.
  - do 3 (split; [reflexivity|]). exists (Math_ceil_div N L).
    split; [exact Hc|]. apply Math_ceil_div_spec. lia.
Qed.

Lemma list_page_witness :
  ∃ data pg,
    (serve email_like env0 (GET_users (Some "2") (Some "2")) (disk_of [mario; luigi; peach])).1
    = Response 200 (Paginated data pg)
    ∧ Z.of_nat (length data) = 1
    ∧ data = [mario]
    ∧ page pg = Whole 2 ∧ limit pg = Whole 2 ∧ total pg = 3
    ∧ ∃ c, pages pg = Whole c ∧ (c - 1) * 2 < 3 ≤ c * 2.
Proof.
  exact (list_page email_like env0 (disk_of [mario; luigi; peach])
           (Some "2") (Some "2") 2 2 eq_refl eq_refl ltac:(lia) ltac:(lia)
           ltac:(vm_compute; reflexivity) ltac:(vm_compute; reflexivity)).
Defined.

(** C1 as it stands does not hold for every limit: no upper bound is
    put on it, and the limit 10^309 is read as [Infinity].  The start
    index is then [0 * Infinity], which is NaN, the page holds no
    record and [pages] is [ceil(3 / Infinity)], which is 0, where the
    claim has [min(L, 3)], which is 3, records and [ceil(3 / L)],
    which is 1, page. *)
Lemma list_page_infinite_limit :
  let w := disk_of [mario; luigi; peach] in
  let q_limit := Some (power_of_ten 309) in
  parseInt_value (Some "1") = Some 1
  ∧ parseInt_value q_limit = Some (10 ^ 309)
  ∧ parseInt q_limit = Infinite false
  ∧ (serve email_like env0 (GET_users (Some "1") q_limit) w).1
    = Response 200 (Paginated [] (Pagination (Whole 1) (Infinite false) 3 (Whole 0)))
  ∧ Z.min (10 ^ 309) (Z.max 0 (3 - (1 - 1) * 10 ^ 309)) = 3
  ∧ Math_ceil_div 3 (10 ^ 309) = 1.
Proof.
  cbv zeta. repeat split; vm_compute; reflexivity.
Qed.

(** ** The identifier pattern *)

Lemma class_hex_decide (c : ascii) :
  Regex.class_matches true Regex.HexLower c
  = bool_decide (c ∈ list_ascii_of_string "0123456789abcdefABCDEF").
Proof.
  destruct c as [b0 b1 b2 b3 b4 b5 b6 b7].
  destruct b0, b1, b2, b3, b4, b5, b6, b7; vm_compute; reflexivity.
Qed.

Lemma class_hex_iff (c : ascii) :
  Regex.class_matches true Regex.HexLower c = true ↔ hex_digit c.
Proof. rewrite class_hex_decide. apply bool_decide_eq_true. Qed.

Lemma class_dash_decide (c : ascii) :
  Regex.class_matches true (Regex.Lit "-") c = bool_decide (c = "-"%char).
Proof.
  destruct c as [b0 b1 b2 b3 b4 b5 b6 b7].
  destruct b0, b1, b2, b3, b4, b5, b6, b7; vm_compute; reflexivity.
Qed.

Lemma class_dash_iff (c : ascii) :
  Regex.class_matches true (Regex.Lit "-") c = true ↔ c = "-"%char.
Proof. rewrite class_dash_decide. apply bool_decide_eq_true. Qed.

Lemma append_cons (c : ascii) (s r : string) : String c s +:+ r = String c (s +:+ r).
Proof. reflexivity. Qed.

Lemma append_empty_r (s : string) : s +:+ "" = s.
Proof. induction s as [|c s IH]; [reflexivity | rewrite append_cons, IH; reflexivity]. Qed.

Section Eat.

Variables (i : bool) (k : Regex.char_class).

Lemma eat_inv (n : nat) (s rest : string) :
  Regex.eat i k n s = Some rest →
  ∃ g, s = g +:+ rest ∧ String.length g = n
       ∧ Forall (λ c, Regex.class_matches i k c = true) (list_ascii_of_string g).
Proof.
  revert s. induction n as [|n IH]; intros s; simpl.
  - intros [= ->]. exists "". repeat split. constructor.
  - destruct s as [|c s]; [discriminate|].
    destruct (Regex.class_matches i k c) eqn:Hc; [|discriminate].
    intros H. destruct (IH _ H) as (g & -> & Hlen & Hall).
    exists (String c g). rewrite append_cons. simpl. repeat split; [congruence|].
    constructor; assumption.
Qed.

Lemma eat_app (g rest : string) :
  Forall (λ c, Regex.class_matches i k c = true) (list_ascii_of_string g) →
  Regex.eat i k (String.length g) (g +:+ rest) = Some rest.
Proof.
  induction g as [|c g IH]; intros Hall; [reflexivity|].
  rewrite append_cons. simpl in *.
  inversion Hall as [|? ? Hc Hg]; subst. rewrite Hc. apply IH, Hg.
Qed.

End Eat.

Lemma eat_hex_group (n : nat) (g rest : string) :
  hex_group n g → Regex.eat true Regex.HexLower n (g +:+ rest) = Some rest.
Proof.
  intros [<- Hall]. apply eat_app.
  eapply Forall_impl; [exact Hall|]. intros c Hc. apply class_hex_iff, Hc.
Qed.

Lemma eat_hex_inv (n : nat) (s rest : string) :
  Regex.eat true Regex.HexLower n s = Some rest → ∃ g, s = g +:+ rest ∧ hex_group n g.
Proof.
  intros H. destruct (eat_inv _ _ _ _ _ H) as (g & -> & Hlen & Hall).
  exists g. split; [reflexivity|]. split; [exact Hlen|].
  eapply Forall_impl; [exact Hall|]. intros c Hc. apply class_hex_iff, Hc.
Qed.

Lemma eat_dash_inv (s rest : string) :
  Regex.eat true (Regex.Lit "-") 1 s = Some rest → s = "-" +:+ rest.
Proof.
  cbn [Regex.eat]. destruct s as [|c s]; [discriminate|].
  destruct (Regex.class_matches true (Regex.Lit "-") c) eqn:Hc; [|discriminate].
  intros [= ->]. apply class_dash_iff in Hc. subst c. reflexivity.
Qed.

Lemma eat_dash (rest : string) :
  Regex.eat true (Regex.Lit "-") 1 ("-" +:+ rest) = Some rest.
Proof. reflexivity. Qed.

Lemma match_pieces_step (i : bool) (p : Regex.piece) (ps : list Regex.piece)
    (s rest : string) :
  Regex.eat i (Regex.cls p) (Regex.count p) s = Some rest →
  Regex.match_pieces i (p :: ps) s = Regex.match_pieces i ps rest.
Proof. intros H. cbn [Regex.match_pieces]. rewrite H. reflexivity. Qed.

(** The literal tests exactly the pattern of the specification. *)
Lemma uuidRegex_canonical (s : string) :
  Regex.test uuidRegex s = true ↔ canonical_uuid s.
Proof.
  unfold Regex.test, uuidRegex, canonical_uuid; cbn [Regex.pieces Regex.ignore_case].
  split.
  - cbn [Regex.match_pieces Regex.cls Regex.count].
    repeat
      match goal with
      | |- context [Regex.eat true ?k ?n ?x] =>
          destruct (Regex.eat true k n x) eqn:?; [|discriminate]
      end.
    repeat
      match goal with
      | H : Regex.eat true Regex.HexLower _ _ = Some _ |- _ =>
          apply eat_hex_inv in H; destruct H as (? & -> & ?)
      | H : Regex.eat true (Regex.Lit _) _ _ = Some _ |- _ =>
          apply eat_dash_inv in H; subst
      end.
    match goal with |- context [match ?r with EmptyString => _ | _ => _ end] =>
      destruct r; [|discriminate] end.
    intros _. rewrite append_empty_r. eauto 12.
  - intros (g1 & g2 & g3 & g4 & g5 & -> & H1 & H2 & H3 & H4 & H5).
    rewrite <- (append_empty_r g5).
    repeat (erewrite match_pieces_step
              by first [apply eat_dash | apply eat_hex_group; eassumption]).
    reflexivity.
Qed.

Lemma not_canonical_test (id : string) :
  ¬ canonical_uuid id → Regex.test uuidRegex id = false.
Proof.
  intros H. destruct (Regex.test uuidRegex id) eqn:Ht; [|reflexivity].
  destruct H. apply uuidRegex_canonical, Ht.
Qed.

Lemma canonical_test (id : string) :
  canonical_uuid id → Regex.test uuidRegex id = true.
Proof. apply uuidRegex_canonical. Qed.

Lemma serve_get_tasks_id (is_email : string → bool) (e : env) (id : string) (w : world) :
  serve is_email e (GET_tasks_id id) w
  = if Regex.test uuidRegex id then
      (match registered w id with
       | Some t => Response 200 (OneTask t)
       | None => Response 404 (ErrorMsg "Task not found")
       end, emit (TasksGet id) w)
    else (Response 404 (ErrorMsg "Task not found"), w).
Proof.
  unfold serve, route, get_tasks_id, registered.
  destruct (Regex.test uuidRegex id); [|reflexivity].
  cbn [negb]. unfold bind, tasks_get, tell, snapshot; simpl.
  destruct (tasks w !! id) as [l|]; [|reflexivity]. simpl.
  destruct (heap w !! l); reflexivity.
Qed.

(** C4. For an id that is not of the canonical UUID shape, [GET
    /users/:id], [DELETE /users/:id] and [GET /tasks/:taskId] answer 404
    and leave the world as it was: the file is not read and the
    registry not consulted, since either would be logged.  An id of the
    canonical shape that no stored user (no registered task) carries
    is answered with 404 as well. *)
Theorem unknown_id_not_found
    (is_email : string → bool) (e : env) (w : world) (id : string) :
  (¬ canonical_uuid id →
     serve is_email e (GET_users_id id) w
     = (Response 404 (ErrorMsg "User not found"), w)
     ∧ serve is_email e (DELETE_users_id id) w
       = (Response 404 (ErrorMsg "User not found"), w)
     ∧ serve is_email e (GET_tasks_id id) w
       = (Response 404 (ErrorMsg "Task not found"), w))
  ∧ (canonical_uuid id → id ∉ User.id <$> stored w →
       (serve is_email e (GET_users_id id) w).1
       = Response 404 (ErrorMsg "User not found")
       ∧ (serve is_email e (DELETE_users_id id) w).1
         = Response 404 (ErrorMsg "User not found")
       ∧ file (serve is_email e (DELETE_users_id id) w).2 = file w)
  ∧ (canonical_uuid id → registered w id = None →
       (serve is_email e (GET_tasks_id id) w).1
       = Response 404 (ErrorMsg "Task not found")).
Proof.
  rewrite serve_get_users_id, serve_delete_users_id, serve_get_tasks_id.
  split; [|split].
  - intros Hbad. rewrite (not_canonical_test id Hbad). auto.
  - intros Hok Hnone. rewrite (canonical_test id Hok).
    apply has_id_false in Hnone.
    rewrite (proj2 (find_none_iff _ _) Hnone).
    unfold findIndex. rewrite (findIndex_from_none _ _ 0 Hnone).
    cbn. auto.
  - intros Hok Hnone. rewrite (canonical_test id Hok), Hnone. reflexivity.
Qed.

Lemma unknown_id_not_found_witness :
  serve email_like env0 (GET_users_id "999") (disk_of [mario])
  = (Response 404 (ErrorMsg "User not found"), disk_of [mario])
  ∧ (serve email_like env0 (GET_users_id (User.id luigi)) (disk_of [mario])).1
    = Response 404 (ErrorMsg "User not found")
  ∧ (serve email_like env0 (GET_tasks_id (User.id luigi)) (disk_of [mario])).1
    = Response 404 (ErrorMsg "Task not found").
Proof.
  pose proof (unknown_id_not_found email_like env0 (disk_of [mario]) "999")
    as (Hbad & _ & _).
  pose proof (unknown_id_not_found email_like env0 (disk_of [mario]) (User.id luigi))
    as (_ & Hu & Ht).
  assert (Hl : canonical_uuid (User.id luigi))
    by (apply uuidRegex_canonical; vm_compute; reflexivity).
  split; [|split].
  - apply Hbad. intros H. apply uuidRegex_canonical in H. vm_compute in H. discriminate.
  - apply Hu; [exact Hl|]. vm_compute. intros H.
    apply list_elem_of_singleton in H. discriminate.
  - apply Ht; [exact Hl | reflexivity].
Defined.

(** ** Submitting a task *)

Lemma is_integer_iff (q : Q) : Zod.is_integer q = true ↔ ∃ k, Qeq q (inject_Z k).
Proof.
  unfold Zod.is_integer. rewrite Qeq_bool_iff. split.
  - intros H. exists (Qfloor q). exact H.
  - intros [k Hk]. rewrite Hk at 2. rewrite Qfloor_Z. exact Hk.
Qed.

Lemma number_checks_inr (v : option jsval) (n : jsnum) :
  Zod.number_ [Zod.int; Zod.positive; Zod.max 1000000] v = inr n
  ↔ v = Some (JNum n) ∧ valid_iterations v.
Proof.
  unfold Zod.number_, Zod.run_checks, valid_iterations.
  destruct v as [[| |[q| |]| | |]|];
    try (split; [discriminate | intros [_ (? & ? & [=] & _)]]).
  cbn [omap list_omap Zod.int Zod.positive Zod.max].
  destruct (Zod.is_integer q) eqn:Hint.
  2: { split; [discriminate|]. intros [_ (q' & k & [= <-] & Hq & _)].
       assert (Zod.is_integer q = true) by (apply is_integer_iff; eauto). congruence. }
  apply is_integer_iff in Hint. destruct Hint as [k Hk].
  destruct (Qle_bool q 0) eqn:Hpos.
  { split; [discriminate|]. intros [_ (q' & k' & [= <-] & Hq & Hlo & _)].
    apply Qle_bool_iff in Hpos. rewrite Hq in Hpos.
    change 0%Q with (inject_Z 0) in Hpos. rewrite <- Zle_Qle in Hpos. lia. }
  destruct (Qle_bool q (inject_Z 1000000)) eqn:Hmax.
  - cbn. split.
    + intros [= <-]. split; [reflexivity|]. exists q, k. split; [reflexivity|].
      split; [exact Hk|]. split.
      * destruct (Z.lt_ge_cases 0 k) as [?|Hle]; [assumption|].
        assert (Qle_bool q 0 = true); [|congruence].
        apply Qle_bool_iff. rewrite Hk. change 0%Q with (inject_Z 0).
        rewrite <- Zle_Qle. exact Hle.
      * apply Qle_bool_iff in Hmax. rewrite Hk, <- Zle_Qle in Hmax. exact Hmax.
    + intros [[= <-] _]. reflexivity.
  - split; [discriminate|]. intros [_ (q' & k' & [= <-] & Hq & _ & Hhi)].
    assert (Qle_bool q (inject_Z 1000000) = true); [|congruence].
    apply Qle_bool_iff. rewrite Hq, <- Zle_Qle. exact Hhi.
Qed.

Lemma valid_iterations_dec (v : option jsval) :
  valid_iterations v ∨ ¬ valid_iterations v.
Proof.
  destruct (Zod.number_ [Zod.int; Zod.positive; Zod.max 1000000] v) as [codes|n] eqn:Hn.
  - right. intros Hv. pose proof Hv as (q & k & Hq & _).
    assert (Zod.number_ [Zod.int; Zod.positive; Zod.max 1000000] v = inr (Finite q))
      by (apply number_checks_inr; auto).
    congruence.
  - left. apply number_checks_inr in Hn. tauto.
Qed.

Lemma number_inl_nonempty (cs : list (Zod.check jsnum)) (v : option jsval) codes :
  Zod.number_ cs v = inl codes → codes ≠ [].
Proof.
  unfold Zod.number_. destruct v as [[| |[q| |]| | |]|]; try (intros [= <-]; discriminate).
  destruct (Zod.run_checks cs (Finite q)); [discriminate | intros [= <-]; discriminate].
Qed.

Section Submit.

Variable is_email : string → bool.
Variable e : env.

Lemma TaskSchema_parse_valid (b : req_body) :
  valid_iterations (fields_of b !! "iterations") →
  ∃ n, fields_of b !! "iterations" = Some (JNum n) ∧ TaskSchema_parse b = ret n.
Proof.
  intros Hv. destruct b as [|fields]; cbn [fields_of] in *.
  { destruct Hv as (? & ? & H & _). rewrite lookup_empty in H. discriminate. }
  unfold TaskSchema_parse.
  destruct (Zod.number_ _ (fields !! "iterations")) as [codes|n] eqn:Hn.
  - destruct Hv as (q & k & Hq & Hrest).
    assert (Zod.number_ [Zod.int; Zod.positive; Zod.max 1000000]
              (fields !! "iterations") = inr (Finite q)) as Hok.
    { apply number_checks_inr. split; [exact Hq|]. exists q, k. auto. }
    congruence.
  - apply number_checks_inr in Hn. destruct Hn as [Hn _]. eauto.
Qed.

Lemma TaskSchema_parse_invalid (b : req_body) :
  ¬ valid_iterations (fields_of b !! "iterations") →
  ∃ issues, TaskSchema_parse b = throw (ZodError issues) ∧ issues ≠ [].
Proof.
  intros Hv. destruct b as [|fields]; cbn [fields_of] in *.
  { eexists. split; [reflexivity | discriminate]. }
  unfold TaskSchema_parse.
  destruct (Zod.number_ _ (fields !! "iterations")) as [codes|n] eqn:Hn.
  - eexists. split; [reflexivity|]. apply number_inl_nonempty in Hn.
    destruct codes; [congruence | discriminate].
  - apply number_checks_inr in Hn. tauto.
Qed.

Lemma serve_post_tasks_heavy_valid (b : req_body) (n : jsnum) (w : world) :
  TaskSchema_parse b = ret n →
  serve is_email e (POST_tasks_heavy b) w
  = (Response 202 (Accepted (randomUUID e) Status.processing n), submitted e n w).
Proof.
  intros Hb. unfold serve, route, post_tasks_heavy, try_catch, bind.
  rewrite Hb. unfold ret at 1.
  unfold new_object, tasks_set, new_Worker, worker_on, bind, tell, ret, submitted;
    cbn -[fresh].
  rewrite alter_insert_eq. unfold set_workers, emit, set_tasks, set_heap.
  cbn [file writable heap tasks workers log workerData thread].
  rewrite <- app_assoc. reflexivity.
Qed.

Lemma serve_post_tasks_heavy_invalid (b : req_body) (issues : list issue) (w : world) :
  TaskSchema_parse b = throw (ZodError issues) →
  serve is_email e (POST_tasks_heavy b) w = (Response 400 (Issues issues), w).
Proof.
  intros Hb. unfold serve, route, post_tasks_heavy, try_catch, bind.
  rewrite Hb. reflexivity.
Qed.

Lemma registered_submitted (n : jsnum) (w : world) :
  registered (submitted e n w) (randomUUID e)
  = Some (Task.mk (randomUUID e) Status.processing n None None None).
Proof.
  unfold registered, submitted; cbn -[fresh].
  rewrite lookup_insert_eq. cbn -[fresh]. apply lookup_insert_eq.
Qed.

(** The two outcomes of [POST /tasks/heavy]. *)
Lemma serve_post_tasks_heavy_cases (b : req_body) (w : world) :
  (∃ n, valid_iterations (fields_of b !! "iterations")
        ∧ fields_of b !! "iterations" = Some (JNum n)
        ∧ serve is_email e (POST_tasks_heavy b) w
          = (Response 202 (Accepted (randomUUID e) Status.processing n),
             submitted e n w))
  ∨ (∃ issues, ¬ valid_iterations (fields_of b !! "iterations")
               ∧ serve is_email e (POST_tasks_heavy b) w
                 = (Response 400 (Issues issues), w)
               ∧ issues ≠ []).
Proof.
  destruct (valid_iterations_dec (fields_of b !! "iterations")) as [Hv|Hv].
  - left. destruct (TaskSchema_parse_valid b Hv) as (n & Hn & Hp).
    exists n. split; [exact Hv|]. split; [exact Hn|].
    apply serve_post_tasks_heavy_valid, Hp.
  - right. destruct (TaskSchema_parse_invalid b Hv) as (issues & Hp & Hne).
    exists issues. split; [exact Hv|]. split; [|exact Hne].
    apply serve_post_tasks_heavy_invalid, Hp.
Qed.

End Submit.

(** C5. [POST /tasks/heavy] answers 202 with the task id, the status
    ["processing"] and the submitted iterations exactly when
    [iterations] is an integer [k] with [0 < k ≤ 1000000], and the
    task is then registered as processing; for any other body (0, a
    negative or fractional number, a number above the bound, no number
    at all) it answers 400 with the issues and the world is as before:
    no task is registered and no worker started. *)
Theorem submit_validation
    (is_email : string → bool) (e : env) (w : world) (b : req_body) :
  let v := fields_of b !! "iterations" in
  let out := serve is_email e (POST_tasks_heavy b) w in
  (valid_iterations v →
     ∃ n, v = Some (JNum n)
          ∧ out.1 = Response 202 (Accepted (randomUUID e) Status.processing n)
          ∧ registered out.2 (randomUUID e)
            = Some (Task.mk (randomUUID e) Status.processing n None None None))
  ∧ (¬ valid_iterations v →
       ∃ issues, out = (Response 400 (Issues issues), w) ∧ issues ≠ [])
  ∧ (status out.1 = 202 ↔ valid_iterations v).
Proof.
  intros v out. subst v out.
  destruct (serve_post_tasks_heavy_cases is_email e b w)
    as [(n & Hv & Hn & ->)|(issues & Hv & -> & Hne)]; cbn [fst snd status].
  - split; [|split].
    + intros _. exists n. split; [exact Hn|]. split; [reflexivity|].
      apply registered_submitted.
    + intros Hnv. contradiction.
    + split; [intros _; exact Hv | reflexivity].
  - split; [|split].
    + intros Hyes. contradiction.
    + intros _. exists issues. split; [reflexivity | exact Hne].
    + split; [discriminate | intros Hyes; contradiction].
Qed.

Lemma submit_validation_witness :
  (serve email_like env0 (POST_tasks_heavy (task_body (JNum (Finite 5)))) (disk_of [])).1
  = Response 202 (Accepted (randomUUID env0) Status.processing (Finite 5))
  ∧ ∃ issues,
      serve email_like env0 (POST_tasks_heavy (task_body (JNum (Finite 0)))) (disk_of [])
      = (Response 400 (Issues issues), disk_of []) ∧ issues ≠ [].
Proof.
  split.
  - destruct (submit_validation email_like env0 (disk_of [])
                (task_body (JNum (Finite 5)))) as (Hyes & _ & _).
    destruct Hyes as (n & Hn & Hr & _).
    + exists 5%Q, 5. split; [reflexivity|]. split; [reflexivity | lia].
    + vm_compute in Hn. injection Hn as <-. exact Hr.
  - destruct (submit_validation email_like env0 (disk_of [])
                (task_body (JNum (Finite 0)))) as (_ & Hno & _).
    apply Hno. intros (q & k & Hq & Hk & Hpos).
    vm_compute in Hq. injection Hq as <-.
    unfold Qeq in Hk. simpl in Hk. lia.
Defined.

Example submit_fraction :
  status (serve email_like env0
            (POST_tasks_heavy (task_body (JNum (Finite (3 # 2))))) (disk_of [])).1 = 400.
Proof. reflexivity. Qed.

Example submit_above_bound :
  status (serve email_like env0
            (POST_tasks_heavy (task_body (JNum (Finite 1000001)))) (disk_of [])).1 = 400.
Proof. reflexivity. Qed.

Example submit_bound :
  status (serve email_like env0
            (POST_tasks_heavy (task_body (JNum (Finite 1000000)))) (disk_of [])).1 = 202.
Proof. reflexivity. Qed.

Example submit_negative :
  status (serve email_like env0
            (POST_tasks_heavy (task_body (JNum (Finite (-3))))) (disk_of [])).1 = 400.
Proof. reflexivity. Qed.

Example submit_string :
  status (serve email_like env0
            (POST_tasks_heavy (task_body (JStr "5"))) (disk_of [])).1 = 400.
Proof. reflexivity. Qed.

Example submit_no_object :
  status (serve email_like env0 (POST_tasks_heavy NotAnObject) (disk_of [])).1 = 400.
Proof. reflexivity. Qed.

(** ** Creating users *)

Section Create.

Variable is_email : string → bool.

Lemma UserSchema_parse_cases (b : req_body) :
  (∃ n em,
     UserSchema_parse is_email b = ret {| name := n; email := em |}
     ∧ fields_of b !! "name" = Some (JStr n) ∧ (2 ≤ String.length n)%nat
     ∧ fields_of b !! "email" = Some (JStr em) ∧ is_email em = true)
  ∨ (∃ issues, UserSchema_parse is_email b = throw (ZodError issues)).
Proof.
  destruct b as [|fields]; [right; eexists; reflexivity|]. cbn [fields_of].
  unfold UserSchema_parse.
  destruct (Zod.string_ [Zod.min_length 2] (fields !! "name")) as [cn|n] eqn:Hn;
    destruct (Zod.string_ [Zod.email_format is_email] (fields !! "email"))
      as [ce|em] eqn:He; try (right; eexists; reflexivity).
  left. exists n, em. apply string_min2_inr in Hn. apply string_email_inr in He.
  destruct Hn, He. auto.
Qed.

Lemma valid_fields_unique (b : req_body) (n em : string) :
  UserSchema_parse is_email b = ret {| name := n; email := em |} →
  ∀ em', fields_of b !! "email" = Some (JStr em') → em' = em.
Proof.
  intros Hb em' Hem'.
  destruct (UserSchema_parse_cases b) as [(n0 & em0 & Hp & _ & _ & He & _)|[issues Hp]].
  - rewrite Hp in Hb. apply ret_inj in Hb. congruence.
  - rewrite Hp in Hb. symmetry in Hb. destruct (ret_not_throw _ _ Hb).
Qed.

Lemma find_app_none {A} (p : A → bool) (l1 l2 : list A) :
  Forall (λ y, p y = false) l1 → List.find p (l1 ++ l2) = List.find p l2.
Proof.
  induction 1 as [|y l1 Hy _ IH]; simpl; [reflexivity|]. rewrite Hy. exact IH.
Qed.

Lemma some_has_email_true (em : string) (l : list User.t) :
  em ∈ User.email <$> l → some (has_email em) l = true.
Proof.
  intros Hin. destruct (some (has_email em) l) eqn:Hs; [reflexivity|].
  apply has_email_false in Hs. contradiction.
Qed.

Lemma count_email_fresh (em : string) (l : list User.t) (u : User.t) :
  em ∉ User.email <$> l → User.email u = em →
  length (filter (λ v, User.email v = em) (l ++ [u])) = 1%nat.
Proof.
  intros Hnot Hu. rewrite filter_app, length_app.
  rewrite filter_cons_True by exact Hu. rewrite filter_nil. simpl.
  replace (filter (λ v, User.email v = em) l) with (@nil User.t); [reflexivity|].
  symmetry. induction l as [|v l IH]; [reflexivity|].
  simpl in Hnot. apply not_elem_of_cons in Hnot as [Hv Hl].
  rewrite filter_cons_False by congruence. apply IH, Hl.
Qed.

(** What a 201 tells about the request and the world. *)
Lemma created_inv (e : env) (b : req_body) (w : world) :
  status (serve is_email e (POST_users b) w).1 = 201 →
  ∃ n em,
    UserSchema_parse is_email b = ret {| name := n; email := em |}
    ∧ (em ∉ User.email <$> stored w)
    ∧ stored (serve is_email e (POST_users b) w).2
      = (stored w ++ [User.mk (randomUUID e) n em (toISOString e) None]).
Proof.
  intros Hst.
  destruct (UserSchema_parse_cases b) as [(n & em & Hp & _)|[issues Hp]].
  - exists n, em. split; [exact Hp|].
    rewrite (serve_post_users_valid is_email e b n em w Hp) in *.
    destruct (some (has_email em) (stored w)) eqn:Hs; [discriminate|].
    cbv zeta in *. destruct (writable w); [|discriminate].
    split; [apply has_email_false, Hs | reflexivity].
  - rewrite (serve_post_users_invalid is_email e b issues w Hp) in Hst. discriminate.
Qed.

End Create.

(** C3 (amended). A create request that passes validation and whose
    email equals, as a string and with case, the email of a stored
    user is answered with 409, and the file is left as it was.  After
    a create that succeeded, a second create with the same email is
    answered with 409 (with 400 if its name fails validation), the
    store stays as the first create left it, and it holds exactly one
    record with that email.  A request that fails validation is
    answered with 400, whatever the store holds, and the world is left
    as it was. *)
Theorem duplicate_email_conflict (is_email : string → bool) :
  (∀ (e : env) (w : world) (fields : gmap string jsval) (n em : string),
     fields !! "name" = Some (JStr n) → (2 ≤ String.length n)%nat →
     fields !! "email" = Some (JStr em) → is_email em = true →
     em ∈ User.email <$> stored w →
     let out := serve is_email e (POST_users (Obj fields)) w in
     out.1 = Response 409 (ErrorMsg "Email already exists")
     ∧ file out.2 = file w ∧ stored out.2 = stored w)
  ∧ (∀ (e1 e2 : env) (w : world) (b1 b2 : req_body) (em : string),
       fields_of b1 !! "email" = Some (JStr em) →
       fields_of b2 !! "email" = Some (JStr em) →
       let out1 := serve is_email e1 (POST_users b1) w in
       let out2 := serve is_email e2 (POST_users b2) out1.2 in
       status out1.1 = 201 →
       (status out2.1 = 409 ∨ status out2.1 = 400)
       ∧ (valid_name (fields_of b2 !! "name") → status out2.1 = 409)
       ∧ stored out2.2 = stored out1.2
       ∧ length (filter (λ u, User.email u = em) (stored out2.2)) = 1%nat)
  ∧ (∀ (e : env) (w : world) (b : req_body),
       ¬ valid_name (fields_of b !! "name")
       ∨ ¬ valid_email is_email (fields_of b !! "email") →
       let out := serve is_email e (POST_users b) w in
       status out.1 = 400 ∧ out.2 = w).
Proof.
  split; [|split].
  - intros e w fields n em Hn Hlen He Hem Hin out. subst out.
    rewrite (serve_post_users_valid is_email e (Obj fields) n em w)
      by (apply UserSchema_parse_valid; assumption).
    rewrite (some_has_email_true em _ Hin). auto.
  - intros e1 e2 w b1 b2 em H1 H2 out1 out2 Hst. subst out1 out2.
    destruct (created_inv is_email e1 b1 w Hst) as (n1 & em1 & Hp1 & Hfresh & Hstored).
    assert (em = em1) as <- by (eapply valid_fields_unique; eassumption).
    set (w1 := (serve is_email e1 (POST_users b1) w).2) in *.
    assert (Hin : em ∈ User.email <$> stored w1).
    { rewrite Hstored, fmap_app, elem_of_app. right. simpl. left. }
    assert (Hcount : length (filter (λ u, User.email u = em) (stored w1)) = 1%nat).
    { rewrite Hstored. apply count_email_fresh; [exact Hfresh | reflexivity]. }
    destruct (UserSchema_parse_cases is_email b2)
      as [(n2 & em2 & Hp2 & Hn2 & Hl2 & He2 & Hv2)|[issues Hp2]].
    + assert (em2 = em) as -> by congruence.
      rewrite (serve_post_users_valid is_email e2 b2 n2 em w1 Hp2).
      rewrite (some_has_email_true em _ Hin). cbn [fst snd status].
      repeat split; auto.
    + rewrite (serve_post_users_invalid is_email e2 b2 issues w1 Hp2).
      cbn [fst snd status]. repeat split; auto.
      intros (n2 & Hn2 & Hl2). exfalso.
      destruct b2 as [|f2]; cbn [fields_of] in *;
        [rewrite lookup_empty in Hn2; discriminate|].
      assert (Hok : is_email em = true).
      { destruct (UserSchema_parse_cases is_email b1)
          as [(n0 & em0 & Hp0 & _ & _ & He0 & Hv0)|[i0 Hp0]].
        - congruence.
        - rewrite Hp0 in Hp1. symmetry in Hp1. destruct (ret_not_throw _ _ Hp1). }
      rewrite (UserSchema_parse_valid is_email f2 n2 em) in Hp2 by assumption.
      destruct (ret_not_throw _ _ Hp2).
  - intros e w b Hbad out. subst out.
    destruct (UserSchema_parse_invalid is_email b Hbad) as (issues & Hp & _).
    rewrite (serve_post_users_invalid is_email e b issues w Hp). split; reflexivity.
Qed.

Lemma duplicate_email_conflict_witness :
  (serve email_like env0 (POST_users (user_body "Luigi Verdi" "mario@test.com"))
     (disk_of [mario])).1
  = Response 409 (ErrorMsg "Email already exists")
  ∧ let out1 := serve email_like env0
                  (POST_users (user_body "Mario Rossi" "mario@test.com")) (disk_of []) in
    let out2 := serve email_like env0
                  (POST_users (user_body "Mario Bianchi" "mario@test.com")) out1.2 in
    length (filter (λ u, User.email u = "mario@test.com") (stored out2.2)) = 1%nat.
Proof.
  destruct (duplicate_email_conflict email_like) as (Ha & Hb & _). split.
  - apply (Ha env0 (disk_of [mario]) _ "Luigi Verdi" "mario@test.com");
      [reflexivity | simpl; lia | reflexivity | reflexivity |].
    simpl. left.
  - apply (Hb env0 env0 (disk_of []) _ _ "mario@test.com");
      reflexivity.
Defined.

(** C3 without the condition on validation does not hold: the email is
    the one of a stored user, the name is too short, and the answer is
    400, not 409. *)
Lemma duplicate_email_invalid_name_400 :
  let b := user_body "a" "mario@test.com" in
  let out := serve email_like env0 (POST_users b) (disk_of [mario]) in
  fields_of b !! "email" = Some (JStr (User.email mario))
  ∧ mario ∈ stored (disk_of [mario])
  ∧ status out.1 = 400
  ∧ status out.1 ≠ 409.
Proof.
  cbv zeta. split; [reflexivity|]. split; [simpl; left|].
  split; [reflexivity | vm_compute; discriminate].
Qed.

(** C6 (amended). For a name of at least 2 characters and an address
    the email pattern accepts that no stored user has, [POST /users]
    answers 201 with the created record and appends it to the file,
    when the file can be written; a [GET /users/:id] with the returned
    id then returns that record, with the submitted name and email,
    the id being a fresh identifier of the canonical shape.
    Conversely, a name that is no string of at least 2 characters or an
    email that the pattern rejects yields 400 with issues that name the
    properties at fault, and nothing is written.  A valid input whose
    email is stored yields 409, and a valid input with a new email on a
    file that cannot be written yields 500; neither changes the
    file. *)
Theorem create_then_get (is_email : string → bool) (e : env) (w : world) :
  (∀ (fields : gmap string jsval) (n em : string),
     fields !! "name" = Some (JStr n) → (2 ≤ String.length n)%nat →
     fields !! "email" = Some (JStr em) → is_email em = true →
     em ∉ User.email <$> stored w → writable w = true →
     let newUser := User.mk (randomUUID e) n em (toISOString e) None in
     let out := serve is_email e (POST_users (Obj fields)) w in
     out.1 = Response 201 (OneUser newUser)
     ∧ file out.2 = Present (Json (stored w ++ [newUser]))
     ∧ (canonical_uuid (randomUUID e) → randomUUID e ∉ User.id <$> stored w →
        ∀ e', (serve is_email e' (GET_users_id (randomUUID e)) out.2).1
              = Response 200 (OneUser newUser)))
  ∧ (∀ b : req_body,
       ¬ valid_name (fields_of b !! "name")
       ∨ ¬ valid_email is_email (fields_of b !! "email") →
       ∃ issues,
         serve is_email e (POST_users b) w = (Response 400 (Issues issues), w)
         ∧ issues ≠ []
         ∧ (∀ fields, b = Obj fields →
              (¬ valid_name (fields !! "name") → mentions "name" issues)
              ∧ (¬ valid_email is_email (fields !! "email") → mentions "email" issues)))
  ∧ (∀ (fields : gmap string jsval) (n em : string),
       fields !! "name" = Some (JStr n) → (2 ≤ String.length n)%nat →
       fields !! "email" = Some (JStr em) → is_email em = true →
       let out := serve is_email e (POST_users (Obj fields)) w in
       (em ∈ User.email <$> stored w →
          out.1 = Response 409 (ErrorMsg "Email already exists") ∧ file out.2 = file w)
       ∧ (em ∉ User.email <$> stored w → writable w = false →
            out.1 = Response 500 (ErrorMsg "Internal server error")
            ∧ file out.2 = file w)).
Proof.
  split; [|split].
  - intros fields n em Hn Hlen He Hem Hfresh Hwr newUser out. subst out.
    rewrite (serve_post_users_valid is_email e (Obj fields) n em w)
      by (apply UserSchema_parse_valid; assumption).
    apply has_email_false in Hfresh. rewrite Hfresh, Hwr. cbv zeta. fold newUser.
    cbn [fst snd]. split; [reflexivity|]. split; [reflexivity|].
    intros Hcan Hid e'. rewrite serve_get_users_id, (canonical_test _ Hcan).
    cbn [fst]. unfold stored at 1. cbn [file set_file].
    apply has_id_false in Hid. rewrite (find_app_none _ _ _ Hid).
    cbn [List.find]. unfold has_id at 1. subst newUser. cbn [User.id].
    rewrite String.eqb_refl. reflexivity.
  - intros b Hbad.
    destruct (UserSchema_parse_invalid is_email b Hbad) as (issues & Hp & Hne & Hm).
    exists issues. split; [|split; assumption].
    apply serve_post_users_invalid, Hp.
  - intros fields n em Hn Hlen He Hem out. subst out.
    rewrite (serve_post_users_valid is_email e (Obj fields) n em w)
      by (apply UserSchema_parse_valid; assumption).
    split.
    + intros Hin. rewrite (some_has_email_true em _ Hin). split; reflexivity.
    + intros Hfresh Hwr. apply has_email_false in Hfresh. rewrite Hfresh, Hwr.
      split; reflexivity.
Qed.

Lemma create_then_get_witness :
  let newUser := User.mk (randomUUID env0) "Luigi Verdi" "luigi@test.com"
                   (toISOString env0) None in
  let out := serve email_like env0
               (POST_users (user_body "Luigi Verdi" "luigi@test.com")) (disk_of [mario]) in
  out.1 = Response 201 (OneUser newUser)
  ∧ (serve email_like env0 (GET_users_id (randomUUID env0)) out.2).1
    = Response 200 (OneUser newUser).
Proof.
  destruct (create_then_get email_like env0 (disk_of [mario])) as [Hok _].
  destruct (Hok (fields_of (user_body "Luigi Verdi" "luigi@test.com"))
              "Luigi Verdi" "luigi@test.com") as (H201 & _ & Hget);
    try reflexivity.
  - simpl; lia.
  - simpl. intros H. apply list_elem_of_singleton in H. discriminate.
  - split; [exact H201|]. apply Hget.
    + apply uuidRegex_canonical. vm_compute. reflexivity.
    + simpl. intros H. apply list_elem_of_singleton in H. discriminate.
Defined.

(** C6 without the condition on the stored emails does not hold: for a
    valid input whose email is already stored the answer is 409.  On a
    file that cannot be written the answer is 500. *)
Lemma create_valid_input_not_201 :
  let b := user_body "Luigi Verdi" "mario@test.com" in
  (2 ≤ String.length "Luigi Verdi")%nat
  ∧ email_like "mario@test.com" = true
  ∧ (serve email_like env0 (POST_users b) (disk_of [mario])).1
    = Response 409 (ErrorMsg "Email already exists")
  ∧ (serve email_like env0 (POST_users (user_body "Luigi Verdi" "luigi@test.com"))
       (read_only_disk_of [mario])).1
    = Response 500 (ErrorMsg "Internal server error").
Proof.
  cbv zeta. split; [simpl; lia|]. repeat split; reflexivity.
Qed.

(** ** Deleting users *)




(** ** The worker *)

Section WorkerProperties.

Context {number : Type}.
Variables (zero : number) (add mul : number → number → number).
Variables (Math_sqrt Math_sin : number → number) (of_Z : Z → number).

(** The loop from [i] with [result] adds the terms [i, ..., N - 1] to
    [result], from the left. *)
Lemma loop_foldl (N : Z) (n : nat) :
  ∀ (i : Z) (result : number),
    Z.to_nat (N - i) = n →
    loop add mul Math_sqrt Math_sin of_Z N i result
    = foldl (λ acc j, add acc (term mul Math_sqrt Math_sin of_Z j)) result
        (seqZ i (N - i)).
Proof.
  induction n as [|n IH]; intros i result Hn; rewrite loop_equation_1.
  - destruct (Z_lt_dec i N) as [Hlt|Hge]; [lia|].
    rewrite seqZ_nil by lia. reflexivity.
  - destruct (Z_lt_dec i N) as [Hlt|Hge]; [|lia].
    cbn [loop_unfold_clause_1]. rewrite IH by lia.
    rewrite (seqZ_cons i (N - i)) by lia. cbn [foldl].
    replace (Z.pred (N - i)) with (N - (i + 1)) by lia.
    reflexivity.
Qed.

End WorkerProperties.

(** C9. For every integer [N] (non-negative in particular), what
    [heavyComputation] returns is a function of [N] alone: the sum of
    the terms [sqrt(i) * sin(i)] for [i = 0, ..., N - 1], added to 0
    one after the other in increasing [i]; for [N = 0] it is 0.  The
    loop ends for every [N]. *)
Theorem heavyComputation_running_sum
    {number : Type} (zero : number) (add mul : number → number → number)
    (Math_sqrt Math_sin : number → number) (of_Z : Z → number) :
  (∀ N : Z,
     heavyComputation zero add mul Math_sqrt Math_sin of_Z N
     = running_sum zero add mul Math_sqrt Math_sin of_Z N)
  ∧ heavyComputation zero add mul Math_sqrt Math_sin of_Z 0 = zero
  ∧ (∀ N : Z, 0 ≤ N →
       heavyComputation zero add mul Math_sqrt Math_sin of_Z (N + 1)
       = add (heavyComputation zero add mul Math_sqrt Math_sin of_Z N)
           (mul (Math_sqrt (of_Z N)) (Math_sin (of_Z N)))).
Proof.
  assert (Hsum : ∀ N : Z,
    heavyComputation zero add mul Math_sqrt Math_sin of_Z N
    = running_sum zero add mul Math_sqrt Math_sin of_Z N).
  { intros N. unfold heavyComputation, running_sum.
    rewrite (loop_foldl add mul Math_sqrt Math_sin of_Z N (Z.to_nat (N - 0)))
      by reflexivity.
    rewrite Z.sub_0_r. reflexivity. }
  split; [exact Hsum|]. split.
  - rewrite Hsum. reflexivity.
  - intros N HN. rewrite !Hsum. unfold running_sum.
    rewrite seqZ_app by lia. rewrite foldl_app.
    rewrite (seqZ_cons (0 + N) 1) by lia.
    rewrite (seqZ_nil (Z.succ (0 + N))) by lia.
    cbn [foldl]. unfold term. rewrite Z.add_0_l. reflexivity.
Qed.

Lemma heavyComputation_running_sum_witness :
  heavyComputation 0 Z.add Z.mul (λ x, x) (λ x, x) (λ i, i) (3 + 1)
  = heavyComputation 0 Z.add Z.mul (λ x, x) (λ x, x) (λ i, i) 3 + 3 * 3.
Proof.
  destruct (heavyComputation_running_sum 0 Z.add Z.mul (λ x, x) (λ x, x) (λ i, i))
    as (_ & _ & Hstep).
  apply (Hstep 3). lia.
Defined.

(** ** The life of a task *)

Section Lifecycle.

Variable is_email : string → bool.

Lemma serve_same_registry (e : env) (r : request) (w : world) :
  (∀ b, r ≠ POST_tasks_heavy b) → same_registry w (serve is_email e r w).2.
Proof.
  intros Hr. destruct r as [| |b|p l|id|id|b|id].
  - split; [|split]; reflexivity.
  - rewrite serve_get_users_active. split; [|split]; reflexivity.
  - destruct (UserSchema_parse_cases is_email b) as [(n & em & Hp & _)|[issues Hp]].
    + rewrite (serve_post_users_valid is_email e b n em w Hp).
      destruct (some _ _); [split; [|split]; reflexivity|].
      cbv zeta. destruct (writable w); split; try split; reflexivity.
    + rewrite (serve_post_users_invalid is_email e b issues w Hp).
      split; [|split]; reflexivity.
  - rewrite serve_get_users. split; [|split]; reflexivity.
  - rewrite serve_get_users_id.
    destruct (Regex.test uuidRegex id); split; try split; reflexivity.
  - rewrite serve_delete_users_id.
    destruct (Regex.test uuidRegex id); [|split; [|split]; reflexivity].
    cbv zeta. destruct (_ =? -1); [split; [|split]; reflexivity|].
    destruct (writable w); split; try split; reflexivity.
  - destruct (Hr b). reflexivity.
  - rewrite serve_get_tasks_id.
    destruct (Regex.test uuidRegex id); split; try split; reflexivity.
Qed.

Lemma deliver_message (wid : nat) (result : jsnum) (now : Z) (w w' : world) :
  deliver wid (λ c, on_message c result now) w = Some w' →
  ∃ c, live w wid c ∧ w' = delivered wid c (complete result (now - c_startTime c)) w.
Proof.
  unfold deliver. destruct (workers w !! wid) as [[d [|] [c|]]|] eqn:Hw; try discriminate.
  intros [= <-]. exists c. split; [exists (Worker d Running (Some c)); auto|].
  reflexivity.
Qed.

Lemma deliver_error (wid : nat) (message : string) (w w' : world) :
  deliver wid (λ c, on_error c message) w = Some w' →
  ∃ c, live w wid c ∧ w' = delivered wid c (fail message) w.
Proof.
  unfold deliver. destruct (workers w !! wid) as [[d [|] [c|]]|] eqn:Hw; try discriminate.
  intros [= <-]. exists c. split; [exists (Worker d Running (Some c)); auto|].
  reflexivity.
Qed.

(** The three kinds of step. *)
Lemma step_cases (a : action) (w w' : world) :
  step is_email a w = Some w' →
  same_registry w w'
  ∨ (∃ e n, fresh_uuid e w = true ∧ w' = submitted e n w)
  ∨ (∃ wid c f,
       live w wid c ∧ w' = delivered wid c f w
       ∧ ((∃ result duration, f = complete result duration) ∨ (∃ message, f = fail message))).
Proof.
  destruct a as [e r|wid result now|wid message]; cbn [step].
  - destruct (fresh_uuid e w) eqn:Hfresh; [|discriminate]. intros [= <-].
    destruct r as [| |b|p l|id|id|b|id];
      try (left; apply serve_same_registry; discriminate).
    destruct (valid_iterations_dec (fields_of b !! "iterations")) as [Hv|Hv].
    + destruct (TaskSchema_parse_valid b Hv) as (n & _ & Hp).
      rewrite (serve_post_tasks_heavy_valid is_email e b n w Hp).
      right; left. exists e, n. auto.
    + destruct (TaskSchema_parse_invalid b Hv) as (issues & Hp & _).
      rewrite (serve_post_tasks_heavy_invalid is_email e b issues w Hp).
      left. split; [|split]; reflexivity.
  - intros H. apply deliver_message in H as (c & Hlive & ->).
    right; right. exists wid, c, (complete result (now - c_startTime c)).
    split; [exact Hlive|]. split; [reflexivity|]. left. eauto.
  - intros H. apply deliver_error in H as (c & Hlive & ->).
    right; right. exists wid, c, (fail message).
    split; [exact Hlive|]. split; [reflexivity|]. right. eauto.
Qed.

End Lifecycle.

Lemma fresh_heap_None (w : world) : heap w !! fresh (dom (heap w)) = None.
Proof. apply not_elem_of_dom, is_fresh. Qed.

Lemma fresh_workers_None (w : world) : workers w !! fresh (dom (workers w)) = None.
Proof. apply not_elem_of_dom, is_fresh. Qed.

Lemma fresh_uuid_tasks (e : env) (w : world) :
  fresh_uuid e w = true → tasks w !! randomUUID e = None.
Proof.
  unfold fresh_uuid. rewrite !andb_true_iff, !bool_decide_eq_true. tauto.
Qed.

Lemma live_submitted (e : env) (n : jsnum) (w : world) (wid : nat) (c : closure) :
  live (submitted e n w) wid c →
  (wid = fresh (dom (workers w))
   ∧ c = Closure (fresh (dom (heap w))) (randomUUID e) (Date_now e))
  ∨ (wid ≠ fresh (dom (workers w)) ∧ live w wid c).
Proof.
  intros (k & Hk & Hrun & Hc). unfold submitted in Hk. cbn [workers] in Hk.
  destruct (decide (wid = fresh (dom (workers w)))) as [->|Hne].
  - rewrite lookup_insert_eq in Hk. injection Hk as <-. cbn in Hc.
    injection Hc as <-. left. split; reflexivity.
  - rewrite lookup_insert_ne in Hk by congruence. right. split; [exact Hne|].
    exists k. auto.
Qed.

Lemma live_delivered (wid0 : nat) (c0 : closure) (f : Task.t → Task.t) (w : world)
    (wid : nat) (c : closure) :
  live (delivered wid0 c0 f w) wid c → wid ≠ wid0 ∧ live w wid c.
Proof.
  intros (k & Hk & Hrun & Hc). unfold delivered in Hk. cbn [workers] in Hk.
  destruct (decide (wid = wid0)) as [->|Hne].
  - rewrite lookup_alter_eq in Hk. destruct (workers w !! wid0) as [k0|]; [|discriminate].
    cbn in Hk. injection Hk as <-. discriminate.
  - rewrite lookup_alter_ne in Hk by congruence. split; [exact Hne|]. exists k. auto.
Qed.

Lemma consistent_boot (f : file_state) (wr : bool) : consistent (boot f wr).
Proof.
  split; [|split].
  - intros wid c (k & Hk & _). cbn in Hk. rewrite lookup_empty in Hk. discriminate.
  - intros wid1 wid2 c1 c2 (k & Hk & _). cbn in Hk. rewrite lookup_empty in Hk.
    discriminate.
  - intros id l H. cbn in H. rewrite lookup_empty in H. discriminate.
Qed.

Lemma consistent_same_registry (w w' : world) :
  same_registry w w' → consistent w → consistent w'.
Proof.
  intros (Hh & Ht & Hw). unfold consistent, live. rewrite Hh, Ht, Hw. auto.
Qed.

Lemma consistent_submitted (e : env) (n : jsnum) (w : world) :
  fresh_uuid e w = true → consistent w → consistent (submitted e n w).
Proof.
  intros Hfresh (I1 & I2 & I3). apply fresh_uuid_tasks in Hfresh.
  pose proof (fresh_heap_None w) as Hl.
  split; [|split].
  - intros wid c Hlive. apply live_submitted in Hlive as [[-> ->]|[Hne Hlive]].
    + unfold submitted; cbn [tasks heap c_task c_taskId].
      rewrite !lookup_insert_eq. split; [reflexivity|]. eexists. split; reflexivity.
    + destruct (I1 wid c Hlive) as (Ht & t & Hh & Hp).
      unfold submitted; cbn [tasks heap].
      rewrite !lookup_insert_ne by congruence. eauto.
  - intros wid1 wid2 c1 c2 H1 H2 Heq.
    apply live_submitted in H1 as [[-> ->]|[Hne1 H1]];
      apply live_submitted in H2 as [[-> ->]|[Hne2 H2]].
    + reflexivity.
    + destruct (I1 wid2 c2 H2) as (_ & t & Hh & _). cbn in Heq. congruence.
    + destruct (I1 wid1 c1 H1) as (_ & t & Hh & _). cbn in Heq. congruence.
    + eapply I2; eassumption.
  - intros id l. unfold submitted; cbn [tasks heap].
    destruct (decide (id = randomUUID e)) as [->|Hne].
    + rewrite lookup_insert_eq. intros [= <-]. rewrite lookup_insert_eq. eauto.
    + rewrite lookup_insert_ne by congruence. intros Ht.
      destruct (I3 id l Ht) as [t Hh].
      rewrite lookup_insert_ne by congruence. eauto.
Qed.

Lemma consistent_delivered (wid : nat) (c : closure) (f : Task.t → Task.t) (w : world) :
  live w wid c → consistent w → consistent (delivered wid c f w).
Proof.
  intros Hlive (I1 & I2 & I3).
  destruct (I1 wid c Hlive) as (Ht & t & Hh & Hp).
  assert (Htasks : tasks (delivered wid c f w) = tasks w)
    by (apply insert_id, Ht).
  split; [|split].
  - intros wid' c' Hlive'. apply live_delivered in Hlive' as [Hne Hlive'].
    destruct (I1 wid' c' Hlive') as (Ht' & t' & Hh' & Hp').
    rewrite Htasks. split; [exact Ht'|]. exists t'. split; [|exact Hp'].
    unfold delivered; cbn [heap]. rewrite lookup_alter_ne; [exact Hh'|].
    intros Heq. apply Hne. eapply I2; eauto.
  - intros wid1 wid2 c1 c2 H1 H2 Heq.
    apply live_delivered in H1 as [_ H1]. apply live_delivered in H2 as [_ H2].
    eapply I2; eassumption.
  - intros id l. rewrite Htasks. intros Hid.
    unfold delivered; cbn [heap]. apply lookup_alter_is_Some. eauto.
Qed.

Lemma registered_same_registry (w w' : world) (id : string) :
  same_registry w w' → registered w' id = registered w id.
Proof. intros (Hh & Ht & _). unfold registered. rewrite Hh, Ht. reflexivity. Qed.

Lemma registered_submitted_other (e : env) (n : jsnum) (w : world) (id : string) (t : Task.t) :
  fresh_uuid e w = true → registered w id = Some t →
  registered (submitted e n w) id = Some t.
Proof.
  intros Hfresh Hreg. apply fresh_uuid_tasks in Hfresh.
  pose proof (fresh_heap_None w) as Hl.
  unfold registered in *. unfold submitted; cbn [tasks heap].
  destruct (tasks w !! id) as [l|] eqn:Hid; [|discriminate]. cbn in Hreg.
  rewrite lookup_insert_ne by congruence. rewrite Hid. cbn.
  rewrite lookup_insert_ne by congruence. exact Hreg.
Qed.

Lemma registered_delivered (wid : nat) (c : closure) (f : Task.t → Task.t) (w : world)
    (id : string) (t : Task.t) :
  live w wid c → consistent w → registered w id = Some t →
  ∃ t', registered (delivered wid c f w) id = Some t'
        ∧ (t' = t ∨ (Task.status t = Status.processing ∧ t' = f t)).
Proof.
  intros Hlive (I1 & _ & _) Hreg.
  destruct (I1 wid c Hlive) as (Ht & t0 & Hh & Hp).
  unfold registered in *. unfold delivered; cbn [tasks heap].
  rewrite (insert_id _ _ _ Ht).
  destruct (tasks w !! id) as [l|] eqn:Hid; [|discriminate]. cbn in *.
  destruct (decide (l = c_task c)) as [->|Hne].
  - rewrite lookup_alter_eq, Hreg. cbn. exists (f t). split; [reflexivity|].
    right. split; [congruence | reflexivity].
  - rewrite lookup_alter_ne by congruence. exists t. auto.
Qed.

Section Runs.

Variable is_email : string → bool.

Lemma step_consistent (a : action) (w w' : world) :
  step is_email a w = Some w' → consistent w → consistent w'.
Proof.
  intros Hstep Hc.
  destruct (step_cases is_email a w w' Hstep)
    as [Hsame|[(e & n & Hfresh & ->)|(wid & c & f & Hlive & -> & _)]].
  - eapply consistent_same_registry; eassumption.
  - apply consistent_submitted; assumption.
  - apply consistent_delivered; assumption.
Qed.

Lemma run_consistent (acts : list action) :
  ∀ w w', run is_email acts w = Some w' → consistent w → consistent w'.
Proof.
  induction acts as [|a acts IH]; intros w w'; cbn [run].
  - intros [= <-]. auto.
  - destruct (step is_email a w) as [w1|] eqn:Hstep; [|discriminate]. cbn.
    intros Hrun Hc. eapply IH; [exact Hrun|]. eapply step_consistent; eassumption.
Qed.

Lemma step_task (a : action) (w w' : world) (id : string) (t : Task.t) :
  step is_email a w = Some w' → consistent w → registered w id = Some t →
  ∃ t', registered w' id = Some t' ∧ task_step t t'.
Proof.
  intros Hstep Hc Hreg.
  destruct (step_cases is_email a w w' Hstep)
    as [Hsame|[(e & n & Hfresh & ->)|(wid & c & f & Hlive & -> & Hf)]].
  - exists t. rewrite (registered_same_registry w w' id Hsame). split; [exact Hreg|].
    left; reflexivity.
  - exists t. split; [apply registered_submitted_other; assumption | left; reflexivity].
  - destruct (registered_delivered wid c f w id t Hlive Hc Hreg) as (t' & Hreg' & Ht').
    exists t'. split; [exact Hreg'|].
    destruct Ht' as [->|[Hp ->]]; [left; reflexivity|]. right. split; [exact Hp|].
    destruct Hf as [(r & d & ->)|(m & ->)]; eauto.
Qed.

Lemma task_step_terminal (t t' : Task.t) :
  task_step t t' → Task.status t ≠ Status.processing → t' = t.
Proof. intros [->|[Hp _]] Hne; [reflexivity | contradiction]. Qed.

Lemma run_terminal (more : list action) :
  ∀ w w' id t,
    run is_email more w = Some w' → consistent w → registered w id = Some t →
    Task.status t ≠ Status.processing → registered w' id = Some t.
Proof.
  induction more as [|a more IH]; intros w w' id t; cbn [run].
  - intros [= <-]. auto.
  - destruct (step is_email a w) as [w1|] eqn:Hstep; [|discriminate]. cbn.
    intros Hrun Hc Hreg Hterm.
    destruct (step_task a w w1 id t Hstep Hc Hreg) as (t1 & Hreg1 & Hts).
    rewrite (task_step_terminal t t1 Hts Hterm) in Hreg1.
    eapply IH; eauto. eapply step_consistent; eassumption.
Qed.

(** Over several steps the status stays, or goes from processing to
    one of the other two. *)
Lemma run_task (more : list action) :
  ∀ w w' id t,
    run is_email more w = Some w' → consistent w → registered w id = Some t →
    ∃ t', registered w' id = Some t'
          ∧ (t' = t
             ∨ (Task.status t = Status.processing
                ∧ Task.status t' ≠ Status.processing)).
Proof.
  induction more as [|a more IH]; intros w w' id t; cbn [run].
  - intros [= <-]. eauto.
  - destruct (step is_email a w) as [w1|] eqn:Hstep; [|discriminate]. cbn.
    intros Hrun Hc Hreg.
    destruct (step_task a w w1 id t Hstep Hc Hreg) as (t1 & Hreg1 & Hts).
    pose proof (step_consistent a w w1 Hstep Hc) as Hc1.
    destruct Hts as [->|[Hp Hnew]].
    + eapply IH; eassumption.
    + assert (Hterm : Task.status t1 ≠ Status.processing)
        by (destruct Hnew as [(r & d & ->)|(m & ->)]; discriminate).
      exists t1. split; [eapply run_terminal; eassumption|].
      right. split; assumption.
Qed.

End Runs.

(** C2. In every world the system reaches from a start of the process:
    a submission that is accepted registers the task as processing,
    with no result, duration or error; a step leaves the record of a
    registered task as it is or takes it from processing to completed,
    setting the result and the duration, or from processing to error,
    setting the message; a record that is completed or in error is the
    same after any further steps; so a status that has changed once
    does not change again. *)
Theorem task_lifecycle
    (is_email : string → bool) (f : file_state) (wr : bool)
    (acts : list action) (w : world) :
  run is_email acts (boot f wr) = Some w →
  (∀ e b,
     status (serve is_email e (POST_tasks_heavy b) w).1 = 202 →
     ∃ n, registered (serve is_email e (POST_tasks_heavy b) w).2 (randomUUID e)
          = Some (Task.mk (randomUUID e) Status.processing n None None None))
  ∧ (∀ a w' id t,
       step is_email a w = Some w' → registered w id = Some t →
       ∃ t', registered w' id = Some t' ∧ task_step t t')
  ∧ (∀ more w' id t,
       run is_email more w = Some w' → registered w id = Some t →
       Task.status t ≠ Status.processing → registered w' id = Some t)
  ∧ (∀ more1 more2 w1 w2 id t t1,
       run is_email more1 w = Some w1 → run is_email more2 w1 = Some w2 →
       registered w id = Some t → registered w1 id = Some t1 →
       Task.status t1 ≠ Task.status t →
       Task.status t = Status.processing ∧ registered w2 id = Some t1).
Proof.
  intros Hrun.
  assert (Hc : consistent w)
    by (eapply run_consistent; [exact Hrun | apply consistent_boot]).
  split; [|split; [|split]].
  - intros e b Hst.
    destruct (serve_post_tasks_heavy_cases is_email e b w)
      as [(n & _ & _ & Heq)|(issues & _ & Heq & _)]; rewrite Heq in *.
    + exists n. apply registered_submitted.
    + discriminate.
  - intros a w' id t Hstep Hreg. eapply step_task; eassumption.
  - intros more w' id t Hmore Hreg Hterm. eapply run_terminal; eassumption.
  - intros more1 more2 w1 w2 id t t1 H1 H2 Hreg Hreg1 Hne.
    destruct (run_task is_email more1 w w1 id t H1 Hc Hreg) as (t1' & Hreg1' & Hcase).
    assert (t1' = t1) as -> by congruence.
    destruct Hcase as [->|[Hp Hterm]]; [contradiction|].
    split; [exact Hp|].
    eapply run_terminal; [exact H2 | | exact Hreg1 | exact Hterm].
    eapply run_consistent; eassumption.
Qed.

Lemma task_lifecycle_witness :
  ∃ w w' t,
    run email_like first_task (boot Absent true) = Some w
    ∧ run email_like and_then w = Some w'
    ∧ registered w (randomUUID env0) = Some t
    ∧ Task.status t = Status.completed
    ∧ registered w' (randomUUID env0) = Some t.
Proof.
  pose (w := default (boot Absent true)
               (run email_like first_task (boot Absent true))).
  pose (w' := default (boot Absent true) (run email_like and_then w)).
  assert (Hw : run email_like first_task (boot Absent true) = Some w)
    by (vm_compute; reflexivity).
  assert (Hw' : run email_like and_then w = Some w')
    by (vm_compute; reflexivity).
  assert (Hreg : registered w (randomUUID env0)
                 = Some (Task.mk (randomUUID env0) Status.completed (Finite 5)
                           (Some (Finite (1 # 4))) (Some 4) None))
    by (vm_compute; reflexivity).
  exists w, w'. eexists. split; [exact Hw|]. split; [exact Hw'|].
  split; [exact Hreg|]. split; [reflexivity|].
  destruct (task_lifecycle email_like Absent true first_task w Hw)
    as (_ & _ & Hterminal & _).
  apply (Hterminal and_then w' (randomUUID env0) _ Hw' Hreg). discriminate.
Defined.

Example second_task_fails :
  (w ← run email_like (first_task ++ and_then) (boot Absent true);
   Task.status <$> registered w (randomUUID env1)) = Some Status.error.
Proof. vm_compute. reflexivity. Qed.

Example poll_while_processing :
  (w ← run email_like [Http env0 (POST_tasks_heavy (task_body (JNum (Finite 5))))]
         (boot Absent true);
   Some (serve email_like env1 (GET_tasks_id (randomUUID env0)) w).1)
  = Some (Response 200
            (OneTask (Task.mk (randomUUID env0) Status.processing (Finite 5)
                        None None None))).
Proof. vm_compute. reflexivity. Qed.

Example second_report_impossible :
  (w ← run email_like first_task (boot Absent true);
   step email_like (Failure 0%nat "late") w) = None.
Proof. vm_compute. reflexivity. Qed.

(** ** Running the model *)

Example uuid_lower :
  Regex.test uuidRegex "3f2504e0-4f89-41d3-9a0c-0305e82c3301" = true.
Proof. reflexivity. Qed.

Example uuid_upper :
  Regex.test uuidRegex "3F2504E0-4F89-41D3-9A0C-0305E82C3301" = true.
Proof. reflexivity. Qed.

Example uuid_number : Regex.test uuidRegex "999" = false.
Proof. reflexivity. Qed.

Example uuid_trailing :
  Regex.test uuidRegex "3f2504e0-4f89-41d3-9a0c-0305e82c3301x" = false.
Proof. reflexivity. Qed.

Example uuid_not_hex :
  Regex.test uuidRegex "3g2504e0-4f89-41d3-9a0c-0305e82c3301" = false.
Proof. reflexivity. Qed.

Example parseInt_examples :
  parseInt (Some "12abc") = Whole 12 ∧ parseInt (Some " -0x1f") = Whole (-31)
  ∧ parseInt (Some "1.9") = Whole 1 ∧ parseInt (Some "abc") = NotANumber
  ∧ parseInt None = NotANumber ∧ parseInt (Some "") = NotANumber.
Proof. repeat split; reflexivity. Qed.

(** Above 2^53 not every integer is a double: 2^53 + 1 is read as 2^53
    and 2^53 + 3 as 2^53 + 4; the largest double is read as itself, and
    from 2^1024 - 2^970 on a numeral is read as an infinity. *)
Example parseInt_rounds :
  parseInt (Some "9007199254740993") = Whole 9007199254740992
  ∧ parseInt (Some "9007199254740995") = Whole 9007199254740996
  ∧ parseInt (Some "-9007199254740993") = Whole (-9007199254740992)
  ∧ round_double (2 ^ 1024 - 2 ^ 971) = Whole (2 ^ 1024 - 2 ^ 971)
  ∧ round_double (2 ^ 1024 - 2 ^ 970 - 1) = Whole (2 ^ 1024 - 2 ^ 971)
  ∧ round_double (2 ^ 1024 - 2 ^ 970) = Infinite false
  ∧ parseInt (Some (power_of_ten 308)) ≠ Infinite false
  ∧ parseInt (Some (power_of_ten 309)) = Infinite false
  ∧ parseInt (Some ("-" +:+ power_of_ten 309)) = Infinite true.
Proof. repeat split; try (vm_compute; reflexivity). vm_compute. discriminate. Qed.

Example pagination_defaults :
  effective_page None = Whole 1 ∧ effective_limit None = Whole 10
  ∧ effective_page (Some "0") = Whole 1 ∧ effective_limit (Some "0") = Whole 10
  ∧ effective_page (Some "-3") = Whole 1 ∧ effective_limit (Some "-3") = Whole 10
  ∧ effective_limit (Some ("-" +:+ power_of_ten 309)) = Whole 10
  ∧ effective_limit (Some "100000") = Whole 100000
  ∧ effective_limit (Some (power_of_ten 309)) = Infinite false.
Proof. repeat split; vm_compute; reflexivity. Qed.

Example newest_first :
  (serve email_like env0 (GET_users None None) (disk_of [mario; luigi; peach])).1
  = Response 200 (Paginated [peach; luigi; mario] (Pagination (Whole 1) (Whole 10) 3 (Whole 1))).
Proof. reflexivity. Qed.

Example beyond_last_page :
  (serve email_like env0 (GET_users (Some "4") (Some "2")) (disk_of [mario; luigi; peach])).1
  = Response 200 (Paginated [] (Pagination (Whole 4) (Whole 2) 3 (Whole 2))).
Proof. reflexivity. Qed.

(** A page beyond 2^53 is echoed as the double it is read as. *)
Example page_echoed_rounded :
  (serve email_like env0 (GET_users (Some "9007199254740993") (Some "2"))
     (disk_of [mario; luigi; peach])).1
  = Response 200
      (Paginated [] (Pagination (Whole 9007199254740992) (Whole 2) 3 (Whole 2))).
Proof. vm_compute. reflexivity. Qed.

Example active_only :
  (serve email_like env0 GET_users_active (disk_of [peach; mario; luigi; mario])).1
  = Response 200 (UserArray [mario; mario]).
Proof. reflexivity. Qed.

(** The run of the test script: create, get, get an id that is no
    UUID, create an invalid user, delete, get again. *)
Example test_script :
  let body := user_body "Mario Rossi" "mario@test.com" in
  let created := User.mk (randomUUID env0) "Mario Rossi" "mario@test.com"
                   (toISOString env0) None in
  let s1 := serve email_like env0 (POST_users body) (boot Absent true) in
  let s2 := serve email_like env1 (GET_users_id (randomUUID env0)) s1.2 in
  let s3 := serve email_like env1 (GET_users_id "999") s2.2 in
  let s4 := serve email_like env1 (POST_users (user_body "a" "invalid")) s3.2 in
  let s5 := serve email_like env1 (DELETE_users_id (randomUUID env0)) s4.2 in
  let s6 := serve email_like env1 (GET_users_id (randomUUID env0)) s5.2 in
  s1.1 = Response 201 (OneUser created)
  ∧ s2.1 = Response 200 (OneUser created)
  ∧ status s3.1 = 404 ∧ status s4.1 = 400
  ∧ s5.1 = Response 204 NoBody ∧ status s6.1 = 404.
Proof. cbv zeta. repeat split; reflexivity. Qed.

(** The comparison of emails is exact: another case is another
    email. *)
Example email_case_matters :
  status (serve email_like env0 (POST_users (user_body "Mario Rossi" "MARIO@test.com"))
            (disk_of [mario])).1 = 201.
Proof. reflexivity. Qed.

(** A stalled worker: with no event of the worker the task stays as it
    was registered, whatever requests are served. *)
Example stalled_worker :
  (w ← run email_like
         [Http env0 (POST_tasks_heavy (task_body (JNum (Finite 5))));
          Http env1 (GET_tasks_id (randomUUID env0));
          Http env1 GET_users_active]
         (boot Absent true);
   Task.status <$> registered w (randomUUID env0)) = Some Status.processing.
Proof. vm_compute. reflexivity. Qed.

(** * Further properties of the handlers *)

(** ** The store under one request *)

Lemma findIndex_from_decompose {A} (p : A → bool) (l : list A) (i : Z) :
  0 ≤ i → findIndex_from p l i ≠ -1 →
  ∃ l1 x l2,
    l = l1 ++ x :: l2 ∧ Forall (λ y, p y = false) l1 ∧ p x = true
    ∧ findIndex_from p l i = i + Z.of_nat (length l1).
Proof.
  revert i. induction l as [|y l IH]; intros i Hi Hne; simpl in *; [congruence|].
  destruct (p y) eqn:Hy.
  - exists [], y, l. simpl. repeat split; [constructor | exact Hy | lia].
  - destruct (IH (i + 1)) as (l1 & x & l2 & -> & Hl1 & Hx & Heq); [lia | exact Hne |].
    exists (y :: l1), x, l2. simpl. repeat split; [constructor; assumption | exact Hx | lia].
Qed.

Lemma findIndex_decompose {A} (p : A → bool) (l : list A) :
  findIndex p l ≠ -1 →
  ∃ l1 x l2,
    l = l1 ++ x :: l2 ∧ Forall (λ y, p y = false) l1 ∧ p x = true
    ∧ findIndex p l = Z.of_nat (length l1).
Proof.
  intros Hne. destruct (findIndex_from_decompose p l 0) as (l1 & x & l2 & H);
    [lia | exact Hne |]. exists l1, x, l2. exact H.
Qed.

Lemma has_id_true (id : string) (u : User.t) : has_id id u = true ↔ User.id u = id.
Proof. unfold has_id. apply String.eqb_eq. Qed.

(** The three outcomes of [DELETE /users/:id]. *)
Lemma serve_delete_cases (is_email : string → bool) (e : env) (id : string) (w : world) :
  let out := serve is_email e (DELETE_users_id id) w in
  (out.1 = Response 204 NoBody
   ∧ writable w = true ∧ Regex.test uuidRegex id = true
   ∧ ∃ l1 u l2,
       stored w = l1 ++ u :: l2 ∧ User.id u = id ∧ (id ∉ User.id <$> l1)
       ∧ file out.2 = Present (Json (l1 ++ l2)))
  ∨ (out.1 = Response 404 (ErrorMsg "User not found")
     ∧ file out.2 = file w
     ∧ (Regex.test uuidRegex id = false ∨ id ∉ User.id <$> stored w))
  ∨ (out.1 = Response 500 (ErrorMsg "Internal server error")
     ∧ file out.2 = file w
     ∧ writable w = false ∧ id ∈ User.id <$> stored w).
Proof.
  intros out. subst out. rewrite serve_delete_users_id.
  destruct (Regex.test uuidRegex id) eqn:Hre; [|right; left; auto].
  cbv zeta. destruct (Z.eqb_spec (findIndex (has_id id) (stored w)) (-1)) as [Hm|Hm].
  - right; left. split; [reflexivity|]. split; [reflexivity|]. right.
    apply has_id_false. apply (findIndex_from_minus_one _ _ 0); [lia | exact Hm].
  - destruct (findIndex_decompose _ _ Hm) as (l1 & u & l2 & Hst & Hl1 & Hu & Hidx).
    apply has_id_true in Hu. apply has_id_false in Hl1.
    destruct (writable w) eqn:Hwr.
    + left. split; [reflexivity|]. split; [reflexivity|]. split; [reflexivity|].
      exists l1, u, l2. rewrite Hidx. rewrite Hst at 2. rewrite splice_one.
      repeat split; assumption.
    + right; right. split; [reflexivity|]. split; [reflexivity|].
      split; [reflexivity|]. rewrite Hst, fmap_app, elem_of_app. right.
      simpl. rewrite Hu. left.
Qed.

Lemma stored_file (w w' : world) : file w' = file w → stored w' = stored w.
Proof. unfold stored. intros ->. reflexivity. Qed.

Lemma serve_store_change (is_email : string → bool) (e : env) (r : request) (w : world) :
  store_change e (stored w) (stored (serve is_email e r w).2).
Proof.
  destruct r as [| |b|p l|id|id|b|id].
  - left. reflexivity.
  - left. rewrite serve_get_users_active. reflexivity.
  - destruct (UserSchema_parse_cases is_email b) as [(n & em & Hp & _)|[issues Hp]].
    + rewrite (serve_post_users_valid is_email e b n em w Hp).
      destruct (some (has_email em) (stored w)) eqn:Hs; [left; reflexivity|].
      cbv zeta. destruct (writable w); [|left; reflexivity].
      right; left. exists n, em. split; [reflexivity|]. apply has_email_false, Hs.
    + rewrite (serve_post_users_invalid is_email e b issues w Hp). left. reflexivity.
  - left. rewrite serve_get_users. reflexivity.
  - left. rewrite serve_get_users_id. destruct (Regex.test uuidRegex id); reflexivity.
  - destruct (serve_delete_cases is_email e id w)
      as [(_ & _ & _ & l1 & u & l2 & Hst & _ & _ & Hf)|[(_ & Hf & _)|(_ & Hf & _)]].
    + right; right. exists l1, u, l2. split; [exact Hst|].
      unfold stored at 1. rewrite Hf. reflexivity.
    + left. apply stored_file, Hf.
    + left. apply stored_file, Hf.
  - left. destruct (serve_post_tasks_heavy_cases is_email e b w)
      as [(n & _ & _ & ->)|(issues & _ & -> & _)]; reflexivity.
  - left. rewrite serve_get_tasks_id. destruct (Regex.test uuidRegex id); reflexivity.
Qed.



(** ** The store along a run *)

Lemma store_change_emails (e : env) (old new : list User.t) :
  store_change e old new → NoDup (User.email <$> old) → NoDup (User.email <$> new).
Proof.
  intros [->|[(n & em & -> & Hfresh)|(l1 & u & l2 & -> & ->)]] Hnd.
  - exact Hnd.
  - rewrite fmap_app. apply NoDup_app. split; [exact Hnd|]. split.
    + intros x Hx Hin. simpl in Hin. apply list_elem_of_singleton in Hin. congruence.
    + simpl. apply NoDup_singleton.
  - rewrite fmap_app in *. simpl in Hnd. apply NoDup_app in Hnd as (H1 & H12 & H2).
    apply NoDup_cons in H2 as [_ H2]. apply NoDup_app. split; [exact H1|].
    split; [|exact H2]. intros x Hx Hin. apply (H12 x Hx). right. exact Hin.
Qed.

Lemma store_change_ids (e : env) (old new : list User.t) :
  store_change e old new → randomUUID e ∉ User.id <$> old →
  NoDup (User.id <$> old) → NoDup (User.id <$> new).
Proof.
  intros [->|[(n & em & -> & _)|(l1 & u & l2 & -> & ->)]] Hfresh Hnd.
  - exact Hnd.
  - rewrite fmap_app. apply NoDup_app. split; [exact Hnd|]. split.
    + intros x Hx Hin. simpl in Hin. apply list_elem_of_singleton in Hin. congruence.
    + simpl. apply NoDup_singleton.
  - rewrite fmap_app in *. simpl in Hnd. apply NoDup_app in Hnd as (H1 & H12 & H2).
    apply NoDup_cons in H2 as [_ H2]. apply NoDup_app. split; [exact H1|].
    split; [|exact H2]. intros x Hx Hin. apply (H12 x Hx). right. exact Hin.
Qed.

Lemma store_change_active (e : env) (old new : list User.t) :
  store_change e old new →
  filter (λ u, User.isActive u = Some true) new
  `sublist_of` filter (λ u, User.isActive u = Some true) old.
Proof.
  intros [->|[(n & em & -> & _)|(l1 & u & l2 & -> & ->)]].
  - reflexivity.
  - rewrite filter_app, filter_cons_False by discriminate.
    rewrite filter_nil, app_nil_r. reflexivity.
  - rewrite !filter_app. apply sublist_app; [reflexivity|].
    rewrite filter_cons. destruct (decide _); [apply sublist_cons|]; reflexivity.
Qed.

Section StoreRuns.

Variable is_email : string → bool.

Lemma fresh_uuid_ids (e : env) (w : world) :
  fresh_uuid e w = true → randomUUID e ∉ User.id <$> stored w.
Proof.
  unfold fresh_uuid. rewrite !andb_true_iff, !bool_decide_eq_true. tauto.
Qed.

Lemma step_store (a : action) (w w' : world) :
  step is_email a w = Some w' →
  stored w' = stored w
  ∨ ∃ e, fresh_uuid e w = true ∧ store_change e (stored w) (stored w').
Proof.
  destruct a as [e r|wid result now|wid message]; cbn [step].
  - destruct (fresh_uuid e w) eqn:Hfresh; [|discriminate]. intros [= <-].
    right. exists e. split; [exact Hfresh|]. apply serve_store_change.
  - intros H. apply deliver_message in H as (c & _ & ->). left. reflexivity.
  - intros H. apply deliver_error in H as (c & _ & ->). left. reflexivity.
Qed.

Lemma run_store_invariant (P : list User.t → Prop) :
  (∀ e w old new,
     fresh_uuid e w = true → old = stored w → store_change e old new → P old → P new) →
  ∀ acts w w', run is_email acts w = Some w' → P (stored w) → P (stored w').
Proof.
  intros Hstep. induction acts as [|a acts IH]; intros w w'; cbn [run].
  - intros [= <-]. auto.
  - destruct (step is_email a w) as [w1|] eqn:Ha; [|discriminate]. cbn.
    intros Hrun HP. apply (IH w1 w' Hrun).
    destruct (step_store a w w1 Ha) as [->|(e & Hfresh & Hch)]; [exact HP|].
    eapply Hstep; eauto.
Qed.

End StoreRuns.

(** X3. If no two stored users share an email, then after any run of
    requests and worker events no two stored users share one. *)
Theorem unique_emails_kept
    (is_email : string → bool) (acts : list action) (w w' : world) :
  run is_email acts w = Some w' →
  NoDup (User.email <$> stored w) → NoDup (User.email <$> stored w').
Proof.
  apply (run_store_invariant is_email (λ l, NoDup (User.email <$> l))).
  intros e w0 old new _ _ Hch. apply (store_change_emails e old new Hch).
Qed.

Lemma unique_emails_kept_witness :
  ∃ w', run email_like user_session (disk_of [mario; luigi]) = Some w'
        ∧ stored w' = [mario;
                       User.mk (randomUUID env0) "Peach" "peach@test.com"
                         (toISOString env0) None]
        ∧ NoDup (User.email <$> stored w').
Proof.
  pose (w' := default (disk_of []) (run email_like user_session (disk_of [mario; luigi]))).
  assert (Hrun : run email_like user_session (disk_of [mario; luigi]) = Some w')
    by (vm_compute; reflexivity).
  exists w'. split; [exact Hrun|]. split; [vm_compute; reflexivity|].
  apply (unique_emails_kept email_like user_session (disk_of [mario; luigi]) w' Hrun).
  simpl. apply NoDup_cons. split.
  - intros H. apply list_elem_of_singleton in H. discriminate.
  - apply NoDup_singleton.
Defined.

(** X4. If no two stored users share an id, then after any run in which
    [randomUUID()] returns ids that are not in use no two stored users
    share one. *)
Theorem unique_ids_kept
    (is_email : string → bool) (acts : list action) (w w' : world) :
  run is_email acts w = Some w' →
  NoDup (User.id <$> stored w) → NoDup (User.id <$> stored w').
Proof.
  apply (run_store_invariant is_email (λ l, NoDup (User.id <$> l))).
  intros e w0 old new Hfresh -> Hch.
  apply (store_change_ids e _ new Hch). apply fresh_uuid_ids, Hfresh.
Qed.

Lemma unique_ids_kept_witness :
  ∃ w', run email_like user_session (disk_of [mario; luigi]) = Some w'
        ∧ NoDup (User.id <$> stored w').
Proof.
  pose (w' := default (disk_of []) (run email_like user_session (disk_of [mario; luigi]))).
  assert (Hrun : run email_like user_session (disk_of [mario; luigi]) = Some w')
    by (vm_compute; reflexivity).
  exists w'. split; [exact Hrun|].
  apply (unique_ids_kept email_like user_session (disk_of [mario; luigi]) w' Hrun).
  simpl. apply NoDup_cons. split.
  - intros H. apply list_elem_of_singleton in H. discriminate.
  - apply NoDup_singleton.
Defined.

(** X5. A user created through the API has no [isActive], and no
    request sets it; so when the requests are served one after the
    other, none taken up while another waits for the file, the list of
    [GET /users/active] after the run is a sublist of what it was
    before: it can lose users to deletions and gains none.  (Requests
    that overlap are another matter: a create that read the file before
    a delete and writes after it brings the deleted user back.) *)
Theorem active_users_only_shrink
    (is_email : string → bool) (acts : list action) (w w' : world) (e e' : env) :
  run is_email acts w = Some w' →
  ∃ before after,
    (serve is_email e GET_users_active w).1 = Response 200 (UserArray before)
    ∧ (serve is_email e' GET_users_active w').1 = Response 200 (UserArray after)
    ∧ after `sublist_of` before.
Proof.
  intros Hrun. rewrite !serve_get_users_active, !filter_active. cbn [fst].
  do 2 eexists. split; [reflexivity|]. split; [reflexivity|].
  refine (run_store_invariant is_email
            (λ l, filter (λ u, User.isActive u = Some true) l
                  `sublist_of` filter (λ u, User.isActive u = Some true) (stored w))
            _ acts w w' Hrun _); [|reflexivity].
  intros e0 w0 old new _ _ Hch Hold.
  etransitivity; [apply (store_change_active e0 old new Hch) | exact Hold].
Qed.

Lemma active_users_only_shrink_witness :
  ∃ before after,
    (serve email_like env0 GET_users_active (disk_of [mario; luigi])).1
    = Response 200 (UserArray before)
    ∧ (serve email_like env0 GET_users_active
         (default (disk_of []) (run email_like user_session (disk_of [mario; luigi])))).1
      = Response 200 (UserArray after)
    ∧ after `sublist_of` before.
Proof.
  apply (active_users_only_shrink email_like user_session).
  vm_compute. reflexivity.
Defined.

(** ** Writing and reading *)

(** X7. A create on a file that cannot be read starts the store anew:
    when the file is missing, unreadable or no JSON, a valid [POST
    /users] answers 201 and the file then holds the created record and
    nothing else.  What an unparsable file held is gone. *)
Theorem create_on_unreadable_file
    (is_email : string → bool) (e : env) (w : world)
    (fields : gmap string jsval) (n em : string) :
  read_fails w → writable w = true →
  fields !! "name" = Some (JStr n) → (2 ≤ String.length n)%nat →
  fields !! "email" = Some (JStr em) → is_email em = true →
  let newUser := User.mk (randomUUID e) n em (toISOString e) None in
  let out := serve is_email e (POST_users (Obj fields)) w in
  out.1 = Response 201 (OneUser newUser) ∧ file out.2 = Present (Json [newUser]).
Proof.
  intros Hfail Hwr Hn Hlen He Hem newUser out. subst out.
  rewrite (serve_post_users_valid is_email e (Obj fields) n em w)
    by (apply UserSchema_parse_valid; assumption).
  rewrite (read_fails_stored w Hfail), Hwr. split; reflexivity.
Qed.

Lemma create_on_unreadable_file_witness :
  let newUser := User.mk (randomUUID env0) "Luigi Verdi" "luigi@test.com"
                   (toISOString env0) None in
  let out := serve email_like env0 (POST_users (user_body "Luigi Verdi" "luigi@test.com"))
               (boot (Present Unparsable) true) in
  out.1 = Response 201 (OneUser newUser) ∧ file out.2 = Present (Json [newUser]).
Proof.
  apply (create_on_unreadable_file email_like env0 (boot (Present Unparsable) true)
           (fields_of (user_body "Luigi Verdi" "luigi@test.com"))
           "Luigi Verdi" "luigi@test.com");
    try reflexivity.
  - right; right. reflexivity.
  - simpl. lia.
Defined.

(** X8. A create followed by the delete of the returned id gives back
    the store: for a valid input with a new email, an id of the
    canonical shape that no stored user has, and a file that can be
    written, the two requests answer 201 and 204 and the stored array
    is what it was. *)
Theorem create_then_delete
    (is_email : string → bool) (e e' : env) (w : world)
    (fields : gmap string jsval) (n em : string) :
  fields !! "name" = Some (JStr n) → (2 ≤ String.length n)%nat →
  fields !! "email" = Some (JStr em) → is_email em = true →
  em ∉ User.email <$> stored w → writable w = true →
  canonical_uuid (randomUUID e) → randomUUID e ∉ User.id <$> stored w →
  let out1 := serve is_email e (POST_users (Obj fields)) w in
  let out2 := serve is_email e' (DELETE_users_id (randomUUID e)) out1.2 in
  status out1.1 = 201 ∧ out2.1 = Response 204 NoBody
  ∧ file out2.2 = Present (Json (stored w)).
Proof.
  intros Hn Hlen He Hem Hnew Hwr Hcan Hid out1 out2. subst out1 out2.
  rewrite (serve_post_users_valid is_email e (Obj fields) n em w)
    by (apply UserSchema_parse_valid; assumption).
  apply has_email_false in Hnew. rewrite Hnew, Hwr. cbv zeta. cbn [fst snd status].
  split; [reflexivity|].
  set (u := User.mk (randomUUID e) n em (toISOString e) None).
  set (w1 := set_file (Present (Json (stored w ++ [u])))
               (emit WriteFile (emit ReadFile w))).
  assert (Hst : stored w1 = stored w ++ [u]) by reflexivity.
  assert (Hwr1 : writable w1 = true) by exact Hwr.
  rewrite serve_delete_users_id, (canonical_test _ Hcan), Hst, Hwr1.
  apply has_id_false in Hid.
  assert (Hidx : findIndex (has_id (randomUUID e)) (stored w ++ [u])
                 = Z.of_nat (length (stored w))).
  { unfold findIndex. rewrite findIndex_from_first; [lia | exact Hid |].
    apply has_id_true. reflexivity. }
  cbv zeta. rewrite Hidx.
  destruct (Z.eqb_spec (Z.of_nat (length (stored w))) (-1)); [lia|].
  rewrite splice_one, app_nil_r. split; reflexivity.
Qed.

Lemma create_then_delete_witness :
  let out1 := serve email_like env0 (POST_users (user_body "Peach" "peach@test.com"))
                (disk_of [mario; luigi]) in
  let out2 := serve email_like env1 (DELETE_users_id (randomUUID env0)) out1.2 in
  status out1.1 = 201 ∧ out2.1 = Response 204 NoBody
  ∧ file out2.2 = Present (Json [mario; luigi]).
Proof.
  apply (create_then_delete email_like env0 env1 (disk_of [mario; luigi])
           (fields_of (user_body "Peach" "peach@test.com")) "Peach" "peach@test.com");
    try reflexivity.
  - simpl. lia.
  - simpl. intros H. apply elem_of_cons in H as [H|H]; [discriminate|].
    apply list_elem_of_singleton in H. discriminate.
  - apply uuidRegex_canonical. vm_compute. reflexivity.
  - simpl. intros H. apply elem_of_cons in H as [H|H]; [discriminate|].
    apply list_elem_of_singleton in H. discriminate.
Defined.

(** ** Requests that read, and the two halves of the application *)

(** X9. The [GET] routes change nothing: after [GET /health], [GET
    /users], [GET /users/active], [GET /users/:id] or [GET
    /tasks/:taskId] the file, the task objects, the registry and the
    workers are as before, and all the handler did is at most one
    lookup (a read of the file or a [get] on the registry): no write,
    no [set], no worker. *)
Theorem get_requests_read_only
    (is_email : string → bool) (e : env) (r : request) (w : world) :
  is_get r = true →
  let w' := (serve is_email e r w).2 in
  file w' = file w ∧ writable w' = writable w
  ∧ heap w' = heap w ∧ tasks w' = tasks w ∧ workers w' = workers w
  ∧ ∃ evs, log w' = log w ++ evs ∧ Forall (λ ev, is_lookup ev = true) evs
           ∧ (length evs ≤ 1)%nat.
Proof.
  intros Hget w'. subst w'.
  assert (Hnone : ∃ evs, log w = log w ++ evs
                         ∧ Forall (λ ev, is_lookup ev = true) evs ∧ (length evs ≤ 1)%nat).
  { exists []. rewrite app_nil_r. split; [reflexivity|]. split; [constructor | simpl; lia]. }
  assert (Hone : ∀ ev, is_lookup ev = true →
            ∃ evs, log (emit ev w) = log w ++ evs
                   ∧ Forall (λ ev, is_lookup ev = true) evs ∧ (length evs ≤ 1)%nat).
  { intros ev Hev. exists [ev]. split; [reflexivity|].
    split; [repeat constructor; exact Hev | simpl; lia]. }
  destruct r as [| |b|p l|id|id|b|id]; try discriminate.
  - do 5 (split; [reflexivity|]). exact Hnone.
  - rewrite serve_get_users_active. do 5 (split; [reflexivity|]). apply Hone. reflexivity.
  - rewrite serve_get_users. do 5 (split; [reflexivity|]). apply Hone. reflexivity.
  - rewrite serve_get_users_id.
    destruct (Regex.test uuidRegex id); do 5 (split; [reflexivity|]);
      [apply Hone; reflexivity | exact Hnone].
  - rewrite serve_get_tasks_id.
    destruct (Regex.test uuidRegex id); do 5 (split; [reflexivity|]);
      [apply Hone; reflexivity | exact Hnone].
Qed.

Lemma get_requests_read_only_witness :
  let w := disk_of [mario; luigi] in
  let w' := (serve email_like env0 (GET_users (Some "1") (Some "1")) w).2 in
  file w' = file w ∧ writable w' = writable w
  ∧ heap w' = heap w ∧ tasks w' = tasks w ∧ workers w' = workers w
  ∧ ∃ evs, log w' = log w ++ evs ∧ Forall (λ ev, is_lookup ev = true) evs
           ∧ (length evs ≤ 1)%nat.
Proof.
  apply (get_requests_read_only email_like env0 (GET_users (Some "1") (Some "1"))
           (disk_of [mario; luigi])).
  reflexivity.
Defined.

(** X10. The users routes and the tasks are apart.  A request under
    [/users] leaves the task objects, the registry and the workers as
    they are; a request under [/tasks], [GET /health] and the report
    of a worker leave the users file as it is. *)
Theorem users_and_tasks_apart (is_email : string → bool) (w : world) :
  (∀ e r, users_route r = true → same_registry w (serve is_email e r w).2)
  ∧ (∀ e r, users_route r = false →
       file (serve is_email e r w).2 = file w
       ∧ writable (serve is_email e r w).2 = writable w)
  ∧ (∀ a w', (∀ e r, a ≠ Http e r) → step is_email a w = Some w' →
       file w' = file w ∧ writable w' = writable w).
Proof.
  split; [|split].
  - intros e r Hr. apply serve_same_registry. intros b ->. discriminate.
  - intros e r Hr. destruct r as [| |b|p l|id|id|b|id]; try discriminate.
    + split; reflexivity.
    + destruct (serve_post_tasks_heavy_cases is_email e b w)
        as [(n & _ & _ & ->)|(issues & _ & -> & _)]; split; reflexivity.
    + rewrite serve_get_tasks_id. destruct (Regex.test uuidRegex id); split; reflexivity.
  - intros a w' Hna Hstep. destruct a as [e r|wid result now|wid message].
    + destruct (Hna e r). reflexivity.
    + apply deliver_message in Hstep as (c & _ & ->). split; reflexivity.
    + apply deliver_error in Hstep as (c & _ & ->). split; reflexivity.
Qed.

Lemma users_and_tasks_apart_witness :
  same_registry (disk_of [mario])
    (serve email_like env0 (DELETE_users_id (User.id mario)) (disk_of [mario])).2
  ∧ file (serve email_like env0 (POST_tasks_heavy (task_body (JNum (Finite 5))))
            (disk_of [mario])).2
    = file (disk_of [mario]).
Proof.
  destruct (users_and_tasks_apart email_like (disk_of [mario])) as (Hu & Ht & _).
  split.
  - apply Hu. reflexivity.
  - apply Ht. reflexivity.
Defined.

(** ** From the submission to the poll *)

Section Poll.

Variable is_email : string → bool.

Lemma deliver_submitted (e : env) (n : jsnum) (w : world) (cb : closure → M unit) :
  let c := Closure (fresh (dom (heap w))) (randomUUID e) (Date_now e) in
  deliver (fresh (dom (workers w))) cb (submitted e n w)
  = Some (cb c (exit_worker (fresh (dom (workers w))) (submitted e n w))).2.
Proof.
  cbv zeta. unfold deliver, submitted at 1. cbn [workers].
  rewrite lookup_insert_eq. reflexivity.
Qed.

Lemma registered_after_report (e : env) (n : jsnum) (w : world) (f : Task.t → Task.t) :
  let c := Closure (fresh (dom (heap w))) (randomUUID e) (Date_now e) in
  registered (delivered (fresh (dom (workers w))) c f (submitted e n w)) (randomUUID e)
  = Some (f (Task.mk (randomUUID e) Status.processing n None None None)).
Proof.
  cbv zeta. unfold registered, delivered, submitted.
  cbn [tasks heap c_task c_taskId].
  rewrite lookup_insert_eq. cbn. rewrite lookup_alter_eq, lookup_insert_eq. reflexivity.
Qed.

End Poll.

(** X11. From the submission to the poll, when the worker succeeds.  A
    submission with valid iterations starts one worker; when that
    worker posts its result, [GET /tasks/:taskId] for the returned id
    answers 200 with the task completed, the posted result, the
    submitted iterations, no error, and as duration the time of the
    message minus the time of the submission, which is not negative if
    the clock did not go back. *)
Theorem completed_task_is_polled
    (is_email : string → bool) (e e' : env) (w : world) (b : req_body)
    (result : jsnum) (now : Z) :
  valid_iterations (fields_of b !! "iterations") → canonical_uuid (randomUUID e) →
  let w1 := (serve is_email e (POST_tasks_heavy b) w).2 in
  ∃ n w2 duration,
    fields_of b !! "iterations" = Some (JNum n)
    ∧ step is_email (Message (fresh (dom (workers w))) result now) w1 = Some w2
    ∧ (serve is_email e' (GET_tasks_id (randomUUID e)) w2).1
      = Response 200
          (OneTask (Task.mk (randomUUID e) Status.completed n
                      (Some result) (Some duration) None))
    ∧ duration = now - Date_now e
    ∧ (Date_now e ≤ now → 0 ≤ duration).
Proof.
  intros Hv Hcan w1. subst w1.
  destruct (serve_post_tasks_heavy_cases is_email e b w)
    as [(n & _ & Hn & ->)|(issues & Hnv & _)]; [|contradiction].
  cbn [snd step]. rewrite deliver_submitted.
  exists n. eexists. exists (now - Date_now e). split; [exact Hn|].
  split; [reflexivity|]. split; [|split; [reflexivity | lia]].
  rewrite serve_get_tasks_id, (canonical_test _ Hcan). cbn [fst].
  change ((on_message _ result now (exit_worker _ (submitted e n w))).2)
    with (delivered (fresh (dom (workers w)))
            (Closure (fresh (dom (heap w))) (randomUUID e) (Date_now e))
            (complete result (now - Date_now e)) (submitted e n w)).
  rewrite registered_after_report. reflexivity.
Qed.

Lemma completed_task_is_polled_witness :
  ∃ n w2 duration,
    fields_of (task_body (JNum (Finite 5))) !! "iterations" = Some (JNum n)
    ∧ step email_like (Message (fresh (dom (workers (disk_of [])))) (Finite (1 # 4)) 1004)
        (serve email_like env0 (POST_tasks_heavy (task_body (JNum (Finite 5))))
           (disk_of [])).2
      = Some w2
    ∧ (serve email_like env1 (GET_tasks_id (randomUUID env0)) w2).1
      = Response 200
          (OneTask (Task.mk (randomUUID env0) Status.completed n
                      (Some (Finite (1 # 4))) (Some duration) None))
    ∧ duration = 1004 - Date_now env0
    ∧ (Date_now env0 ≤ 1004 → 0 ≤ duration).
Proof.
  apply (completed_task_is_polled email_like env0 env1 (disk_of [])
           (task_body (JNum (Finite 5))) (Finite (1 # 4)) 1004).
  - exists 5%Q, 5. split; [reflexivity|]. split; [reflexivity | lia].
  - apply uuidRegex_canonical. vm_compute. reflexivity.
Defined.

(** X12. From the submission to the poll, when the worker fails.  When
    the worker of an accepted submission emits an error, [GET
    /tasks/:taskId] for the returned id answers 200 with the task in
    error, the message of the error, and neither result nor
    duration. *)
Theorem failed_task_is_polled
    (is_email : string → bool) (e e' : env) (w : world) (b : req_body)
    (message : string) :
  valid_iterations (fields_of b !! "iterations") → canonical_uuid (randomUUID e) →
  let w1 := (serve is_email e (POST_tasks_heavy b) w).2 in
  ∃ n w2,
    fields_of b !! "iterations" = Some (JNum n)
    ∧ step is_email (Failure (fresh (dom (workers w))) message) w1 = Some w2
    ∧ (serve is_email e' (GET_tasks_id (randomUUID e)) w2).1
      = Response 200
          (OneTask (Task.mk (randomUUID e) Status.error n None None (Some message))).
Proof.
  intros Hv Hcan w1. subst w1.
  destruct (serve_post_tasks_heavy_cases is_email e b w)
    as [(n & _ & Hn & ->)|(issues & Hnv & _)]; [|contradiction].
  cbn [snd step]. rewrite deliver_submitted.
  exists n. eexists. split; [exact Hn|]. split; [reflexivity|].
  rewrite serve_get_tasks_id, (canonical_test _ Hcan). cbn [fst].
  change ((on_error _ message (exit_worker _ (submitted e n w))).2)
    with (delivered (fresh (dom (workers w)))
            (Closure (fresh (dom (heap w))) (randomUUID e) (Date_now e))
            (fail message) (submitted e n w)).
  rewrite registered_after_report. reflexivity.
Qed.

Lemma failed_task_is_polled_witness :
  ∃ n w2,
    fields_of (task_body (JNum (Finite 5))) !! "iterations" = Some (JNum n)
    ∧ step email_like (Failure (fresh (dom (workers (disk_of [])))) "out of memory")
        (serve email_like env0 (POST_tasks_heavy (task_body (JNum (Finite 5))))
           (disk_of [])).2
      = Some w2
    ∧ (serve email_like env1 (GET_tasks_id (randomUUID env0)) w2).1
      = Response 200
          (OneTask (Task.mk (randomUUID env0) Status.error n None None
                      (Some "out of memory"))).
Proof.
  apply (failed_task_is_polled email_like env0 env1 (disk_of [])
           (task_body (JNum (Finite 5))) "out of memory").
  - exists 5%Q, 5. split; [reflexivity|]. split; [reflexivity | lia].
  - apply uuidRegex_canonical. vm_compute. reflexivity.
Defined.

(** ** The records of the registry *)

Section Records.

Variable is_email : string → bool.

Lemma step_cases_valid (a : action) (w w' : world) :
  step is_email a w = Some w' →
  same_registry w w'
  ∨ (∃ e n, fresh_uuid e w = true ∧ valid_iterations (Some (JNum n))
            ∧ w' = submitted e n w)
  ∨ (∃ wid c f,
       live w wid c ∧ w' = delivered wid c f w
       ∧ ((∃ result duration, f = complete result duration) ∨ (∃ message, f = fail message))).
Proof.
  destruct a as [e r|wid result now|wid message]; cbn [step].
  - destruct (fresh_uuid e w) eqn:Hfresh; [|discriminate]. intros [= <-].
    destruct r as [| |b|p l|id|id|b|id];
      try (left; apply serve_same_registry; discriminate).
    destruct (serve_post_tasks_heavy_cases is_email e b w)
      as [(n & Hv & Hn & ->)|(issues & _ & -> & _)].
    + right; left. exists e, n. rewrite Hn in Hv. auto.
    + left. split; [|split]; reflexivity.
  - intros H. apply deliver_message in H as (c & Hlive & ->).
    right; right. exists wid, c, (complete result (now - c_startTime c)).
    split; [exact Hlive|]. split; [reflexivity|]. left. eauto.
  - intros H. apply deliver_error in H as (c & Hlive & ->).
    right; right. exists wid, c, (fail message).
    split; [exact Hlive|]. split; [reflexivity|]. right. eauto.
Qed.

Lemma registry_wf_boot (f : file_state) (wr : bool) : registry_wf (boot f wr).
Proof. intros id l t H. cbn in H. rewrite lookup_empty in H. discriminate. Qed.

Lemma registry_wf_same (w w' : world) :
  same_registry w w' → registry_wf w → registry_wf w'.
Proof. intros (Hh & Ht & _). unfold registry_wf. rewrite Hh, Ht. auto. Qed.

Lemma registry_wf_submitted (e : env) (n : jsnum) (w : world) :
  valid_iterations (Some (JNum n)) → consistent w → registry_wf w →
  registry_wf (submitted e n w).
Proof.
  intros Hv (_ & _ & I3) Hwf id l t. unfold submitted; cbn [tasks heap].
  pose proof (fresh_heap_None w) as Hl.
  destruct (decide (id = randomUUID e)) as [->|Hne].
  - rewrite lookup_insert_eq. intros [= <-]. rewrite lookup_insert_eq. intros [= <-].
    split; [reflexivity|]. split; [exact Hv|]. cbn. auto.
  - rewrite lookup_insert_ne by congruence. intros Hid.
    destruct (I3 id l Hid) as [t0 Ht0].
    rewrite lookup_insert_ne by congruence. apply Hwf, Hid.
Qed.

Lemma task_wf_report (id : string) (t : Task.t) (f : Task.t → Task.t) :
  task_wf id t → Task.status t = Status.processing →
  (∃ result duration, f = complete result duration) ∨ (∃ message, f = fail message) →
  task_wf id (f t).
Proof.
  intros (Hid & Hv & Hst) Hp Hf. rewrite Hp in Hst. destruct Hst as (Hr & Hd & He).
  destruct Hf as [(r & d & ->)|(m & ->)]; split; try split; cbn; eauto.
Qed.

Lemma registry_wf_delivered (wid : nat) (c : closure) (f : Task.t → Task.t) (w : world) :
  live w wid c → consistent w → registry_wf w →
  (∃ result duration, f = complete result duration) ∨ (∃ message, f = fail message) →
  registry_wf (delivered wid c f w).
Proof.
  intros Hlive (I1 & _ & _) Hwf Hf id l t.
  destruct (I1 wid c Hlive) as (Ht & t0 & Hh & Hp).
  unfold delivered; cbn [tasks heap]. rewrite (insert_id _ _ _ Ht). intros Hid.
  destruct (decide (l = c_task c)) as [->|Hne].
  - rewrite lookup_alter_eq, Hh. intros [= <-].
    apply task_wf_report; [eapply Hwf; eassumption | exact Hp | exact Hf].
  - rewrite lookup_alter_ne by congruence. apply Hwf, Hid.
Qed.

Lemma run_registry_wf (acts : list action) :
  ∀ w w', run is_email acts w = Some w' →
          consistent w → registry_wf w → registry_wf w'.
Proof.
  induction acts as [|a acts IH]; intros w w'; cbn [run].
  - intros [= <-]. auto.
  - destruct (step is_email a w) as [w1|] eqn:Hstep; [|discriminate]. cbn.
    intros Hrun Hc Hwf.
    apply (IH w1 w' Hrun); [eapply step_consistent; eassumption|].
    destruct (step_cases_valid a w w1 Hstep)
      as [Hsame|[(e & n & _ & Hv & ->)|(wid & c & f & Hlive & -> & Hf)]].
    + eapply registry_wf_same; eassumption.
    + apply registry_wf_submitted; assumption.
    + apply registry_wf_delivered; assumption.
Qed.

End Records.

(** X13. In every world the system reaches from a start of the process,
    the task that [GET /tasks/:taskId] returns is well formed: its
    [taskId] is the id that was asked for, its iterations are an
    integer from 1 to 1000000, and its fields fit its status: nothing
    but the status while processing; a result and a duration and no
    error when completed; an error and neither result nor duration
    when in error. *)
Theorem polled_task_well_formed
    (is_email : string → bool) (f : file_state) (wr : bool)
    (acts : list action) (w : world) (e : env) (id : string) (t : Task.t) :
  run is_email acts (boot f wr) = Some w →
  (serve is_email e (GET_tasks_id id) w).1 = Response 200 (OneTask t) →
  task_wf id t.
Proof.
  intros Hrun. rewrite serve_get_tasks_id.
  assert (Hwf : registry_wf w).
  { eapply run_registry_wf; [exact Hrun | apply consistent_boot | apply registry_wf_boot]. }
  destruct (Regex.test uuidRegex id); [|discriminate]. cbn [fst].
  unfold registered. destruct (tasks w !! id) as [l|] eqn:Hid; [|discriminate].
  cbn. destruct (heap w !! l) as [t0|] eqn:Hl; [|discriminate].
  intros [= <-]. eapply Hwf; eassumption.
Qed.

Lemma polled_task_well_formed_witness :
  ∃ w t,
    run email_like (first_task ++ and_then) (boot Absent true) = Some w
    ∧ (serve email_like env2 (GET_tasks_id (randomUUID env1)) w).1
      = Response 200 (OneTask t)
    ∧ Task.status t = Status.error
    ∧ task_wf (randomUUID env1) t.
Proof.
  pose (w := default (boot Absent true)
               (run email_like (first_task ++ and_then) (boot Absent true))).
  assert (Hrun : run email_like (first_task ++ and_then) (boot Absent true) = Some w)
    by (vm_compute; reflexivity).
  assert (Hget : (serve email_like env2 (GET_tasks_id (randomUUID env1)) w).1
                 = Response 200
                     (OneTask (Task.mk (randomUUID env1) Status.error (Finite 7)
                                 None None (Some "out of memory"))))
    by (vm_compute; reflexivity).
  exists w. eexists. split; [exact Hrun|]. split; [exact Hget|].
  split; [reflexivity|].
  exact (polled_task_well_formed email_like Absent true (first_task ++ and_then) w
           env2 (randomUUID env1) _ Hrun Hget).
Defined.

(** ** Pages *)

Lemma page_data (is_email : string → bool) (e : env) (w : world)
    (q_page q_limit : option string) (P L : Z) :
  parseInt_value q_page = Some P → parseInt_value q_limit = Some L → 1 ≤ P → 1 ≤ L →
  L < 2 ^ 1024 - 2 ^ 970 → Z.of_nat (length (stored w)) < 2 ^ 32 →
  data_of (serve is_email e (GET_users q_page q_limit) w).1
  = take (Z.to_nat L) (drop (Z.to_nat ((P - 1) * L)) (reverse (stored w))).
Proof.
  intros HP HL H1P H1L Hlt HN.
  assert (Hfin : round_double L ≠ Infinite false) by (apply round_double_finite; lia).
  rewrite serve_get_users. cbv zeta. unfold data_of. cbn [fst body].
  rewrite (effective_page_value _ _ HP H1P), (effective_limit_value _ _ HL H1L).
  apply page_window; try assumption. rewrite length_reverse. lia.
Qed.

(** [n] windows of width [L], one after the other. *)
Lemma windows_concat {A} (l : list A) (L n : nat) :
  concat ((λ k, take L (drop (k * L) l)) <$> seq 0 n) = take (n * L) l.
Proof.
  induction n as [|n IH]; [reflexivity|].
  rewrite seq_S, fmap_app, concat_app, IH. cbn [fmap list_fmap concat].
  rewrite app_nil_r, take_take_drop. f_equal. lia.
Qed.

(** X14. Whatever the query holds, [GET /users] answers 200 with the
    total [N] and with a page and a limit that are each an integer from
    1 on or [Infinity]: a page that is absent, not a number, 0 or
    negative counts as 1 and such a limit as 10; any other value is
    taken as [parseInt] reads it, a limit without an upper bound.  With
    a finite limit the data are at most [limit] records, the window of
    the reversed store at [(page - 1) * limit], which is empty when the
    page is [Infinity], and [pages] is [ceil(N / limit)].  With the
    limit [Infinity] the data are empty and [pages] is 0.  [N] is the
    length of an array, so below 2^32. *)
Theorem list_any_query
    (is_email : string → bool) (e : env) (w : world) (q_page q_limit : option string) :
  let N := Z.of_nat (length (stored w)) in
  N < 2 ^ 32 →
  ∃ data pg,
    (serve is_email e (GET_users q_page q_limit) w).1 = Response 200 (Paginated data pg)
    ∧ total pg = N
    ∧ page pg = match parseInt q_page with
                | Whole P => if 1 <=? P then Whole P else Whole 1
                | Infinite false => Infinite false
                | _ => Whole 1
                end
    ∧ limit pg = match parseInt q_limit with
                 | Whole L => if 1 <=? L then Whole L else Whole 10
                 | Infinite false => Infinite false
                 | _ => Whole 10
                 end
    ∧ at_least_one (page pg) ∧ at_least_one (limit pg)
    ∧ match limit pg with
      | Whole L =>
          Z.of_nat (length data) ≤ L
          ∧ data = match page pg with
                   | Whole P =>
                       take (Z.to_nat L) (drop (Z.to_nat ((P - 1) * L)) (reverse (stored w)))
                   | _ => []
                   end
          ∧ ∃ c, pages pg = Whole c ∧ (c - 1) * L < N ≤ c * L
      | _ => data = [] ∧ pages pg = Whole 0
      end.
Proof.
  intros N HN. rewrite serve_get_users. cbv zeta. cbn [fst].
  do 2 eexists. split; [reflexivity|].
  cbn [page limit total pages]. rewrite length_reverse. fold N.
  split; [reflexivity|].
  split.
  { unfold effective_page, or_else. cbv zeta.
    destruct (parseInt q_page) as [P|[|]|]; cbn; try reflexivity.
    destruct (Z.eqb_spec P 0); [subst; reflexivity|]. cbn.
    destruct (Z.ltb_spec P 1), (Z.leb_spec 1 P); try lia; reflexivity. }
  split.
  { unfold effective_limit, or_else. cbv zeta.
    destruct (parseInt q_limit) as [L|[|]|]; cbn; try reflexivity.
    destruct (Z.eqb_spec L 0); [subst; reflexivity|]. cbn.
    destruct (Z.ltb_spec L 1), (Z.leb_spec 1 L); try lia; reflexivity. }
  pose proof (effective_page_at_least_one q_page) as Hp.
  pose proof (effective_limit_at_least_one q_limit) as Hl.
  split; [exact Hp|]. split; [exact Hl|].
  destruct (effective_limit q_limit) as [L|[|]|]; cbn in Hl; try done.
  - assert (Hdata : slice (startIndex_of (effective_page q_page) (Whole L))
                      (endIndex_of (effective_page q_page) (Whole L)) (reverse (stored w))
                    = match effective_page q_page with
                      | Whole P =>
                          take (Z.to_nat L)
                            (drop (Z.to_nat ((P - 1) * L)) (reverse (stored w)))
                      | _ => []
                      end).
    { destruct (effective_page q_page) as [P|[|]|]; cbn in Hp; try done.
      - apply page_window_of; try assumption; try (left; reflexivity); try discriminate.
        rewrite length_reverse. fold N. lia.
      - apply page_window_infinite_page. exact Hl. }
    rewrite Hdata. split; [|split; [reflexivity|]].
    + destruct (effective_page q_page); cbn [length]; try lia.
      rewrite length_take. lia.
    + exists (Math_ceil_div N L). cbn. destruct (Z.eqb_spec L 0); [lia|].
      split; [reflexivity|]. apply Math_ceil_div_spec. lia.
  - split; [|reflexivity]. apply page_window_infinite. exact Hp.
Qed.

Lemma list_any_query_witness :
  ∃ data pg,
    (serve email_like env0 (GET_users (Some "2") (Some (power_of_ten 309)))
       (disk_of [mario; luigi; peach])).1
    = Response 200 (Paginated data pg)
    ∧ total pg = 3 ∧ page pg = Whole 2 ∧ limit pg = Infinite false
    ∧ data = [] ∧ pages pg = Whole 0.
Proof.
  destruct (list_any_query email_like env0 (disk_of [mario; luigi; peach])
              (Some "2") (Some (power_of_ten 309)) ltac:(vm_compute; reflexivity))
    as (data & pg & Hres & Ht & Hp & Hl & _ & _ & Hm).
  assert (El : limit pg = Infinite false) by (rewrite Hl; vm_compute; reflexivity).
  rewrite El in Hm. destruct Hm as [Hd Hpages].
  exists data, pg. split; [exact Hres|]. split; [exact Ht|].
  split; [rewrite Hp; vm_compute; reflexivity|].
  split; [exact El|]. split; assumption.
Defined.

(** X15. The pages of a listing make up the store.  For a limit [L ≥ 1]
    below 2^1024 - 2^970, so not read as [Infinity], every page of the
    listing reports
    [pages = ceil(N / L)], and the data of the pages 1, 2, ..., [pages],
    one after the other, are the stored users from the newest to the
    oldest: every user is on exactly one page and the order runs
    through the pages.  [N] is the length of an array, so below
    2^32. *)
Theorem pages_make_up_the_store
    (is_email : string → bool) (e : env) (w : world)
    (q_page : Z → option string) (q_limit : option string) (L : Z) :
  let N := Z.of_nat (length (stored w)) in
  parseInt_value q_limit = Some L → 1 ≤ L → L < 2 ^ 1024 - 2 ^ 970 →
  N < 2 ^ 32 →
  (∀ P, 1 ≤ P ≤ Math_ceil_div N L → parseInt_value (q_page P) = Some P) →
  (∀ q, ∃ data pg,
     (serve is_email e (GET_users q q_limit) w).1 = Response 200 (Paginated data pg)
     ∧ pages pg = Whole (Math_ceil_div N L))
  ∧ concat ((λ P, data_of (serve is_email e (GET_users (q_page P) q_limit) w).1)
              <$> seqZ 1 (Math_ceil_div N L))
    = reverse (stored w).
Proof.
  intros N HL H1 Hbound HN Hq. split.
  { intros q. rewrite serve_get_users. cbv zeta. cbn [fst].
    do 2 eexists. split; [reflexivity|]. cbn [pages].
    rewrite length_reverse. fold N. rewrite (effective_limit_value _ _ HL H1).
    apply pages_of_limit; [subst N; lia | exact H1 | apply round_double_finite; lia]. }
  pose proof (Math_ceil_div_spec N L ltac:(lia)) as Hceil. cbv zeta in Hceil.
  set (c := Math_ceil_div N L) in *.
  assert (Hc : 0 ≤ c) by (subst N; nia).
  unfold seqZ. rewrite <- list_fmap_compose.
  rewrite (list_fmap_ext _ (λ k, take (Z.to_nat L) (drop (k * Z.to_nat L) (reverse (stored w))))).
  - rewrite windows_concat. apply take_ge. rewrite length_reverse. subst N. nia.
  - intros i k Hk. apply lookup_seq in Hk as [-> Hlt]. cbn [compose].
    rewrite (page_data is_email e w _ q_limit (Z.of_nat i + 1) L);
      try assumption; try lia; [|apply Hq; lia].
    do 2 f_equal. nia.
Qed.

Lemma pages_make_up_the_store_witness :
  (∀ q, ∃ data pg,
     (serve email_like env0 (GET_users q (Some "2")) (disk_of [mario; luigi; peach])).1
     = Response 200 (Paginated data pg)
     ∧ pages pg = Whole 2)
  ∧ concat ((λ P, data_of (serve email_like env0
                             (GET_users (if P =? 1 then Some "1" else Some "2") (Some "2"))
                             (disk_of [mario; luigi; peach])).1)
              <$> seqZ 1 2)
    = [peach; luigi; mario].
Proof.
  apply (pages_make_up_the_store email_like env0 (disk_of [mario; luigi; peach])
           (λ P, if P =? 1 then Some "1" else Some "2") (Some "2") 2).
  - reflexivity.
  - lia.
  - vm_compute. reflexivity.
  - vm_compute. reflexivity.
  - intros P HP. change (Math_ceil_div _ 2) with 2 in HP.
    destruct (Z.eqb_spec P 1) as [->|Hne]; [reflexivity|].
    assert (P = 2) as -> by lia. reflexivity.
Defined.

(** X16. A page is empty exactly when it lies beyond the last.  For
    [P ≥ 1] and [L ≥ 1], the limit below 2^1024 - 2^970 and so not
    read as [Infinity], the data of page [P] is empty if and only if
    [P > ceil(N / L)], the [pages] of the listing; and with such a
    limit of at least [N], page 1 is the whole store, newest first.  [N] is
    the length of an array, so below 2^32. *)
Theorem page_empty_beyond_last
    (is_email : string → bool) (e : env) (w : world)
    (q_page q_limit : option string) (P L : Z) :
  let N := Z.of_nat (length (stored w)) in
  let data := data_of (serve is_email e (GET_users q_page q_limit) w).1 in
  parseInt_value q_page = Some P → parseInt_value q_limit = Some L → 1 ≤ P → 1 ≤ L →
  L < 2 ^ 1024 - 2 ^ 970 → N < 2 ^ 32 →
  (data = [] ↔ Math_ceil_div N L < P)
  ∧ (P = 1 → N ≤ L → data = reverse (stored w)).
Proof.
  intros N data HP HL H1P H1L Hfin HN. subst data.
  rewrite (page_data is_email e w q_page q_limit P L) by assumption.
  pose proof (Math_ceil_div_spec N L ltac:(lia)) as Hceil. cbv zeta in Hceil.
  set (c := Math_ceil_div N L) in *.
  set (rv := reverse (stored w)).
  assert (Hlen : Z.of_nat (length rv) = N) by (subst rv N; rewrite length_reverse; reflexivity).
  split; [split|].
  - intros Hnil. apply (f_equal length) in Hnil.
    rewrite length_take, length_drop in Hnil. simpl in Hnil.
    destruct (Z.lt_ge_cases c P) as [?|Hle]; [assumption|]. nia.
  - intros Hlt. apply nil_length_inv. rewrite length_take, length_drop. nia.
  - intros -> HNL. change (Z.to_nat ((1 - 1) * L)) with 0%nat. rewrite drop_0.
    apply take_ge. lia.
Qed.

Lemma page_empty_beyond_last_witness :
  (data_of (serve email_like env0 (GET_users (Some "1") (Some "5"))
              (disk_of [mario; luigi; peach])).1 = []
   ↔ Math_ceil_div 3 5 < 1)
  ∧ (1 = 1 → 3 ≤ 5 →
     data_of (serve email_like env0 (GET_users (Some "1") (Some "5"))
                (disk_of [mario; luigi; peach])).1
     = reverse [mario; luigi; peach]).
Proof.
  apply (page_empty_beyond_last email_like env0 (disk_of [mario; luigi; peach])
           (Some "1") (Some "5") 1 5);
    [reflexivity | reflexivity | lia | lia | vm_compute; reflexivity
    | vm_compute; reflexivity].
Defined.

(** ** The registry along a run *)

Section Registry.

Variable is_email : string → bool.

Lemma run_invariant (P : world → Prop) :
  (∀ a w w', step is_email a w = Some w' → consistent w → P w → P w') →
  ∀ acts w w', run is_email acts w = Some w' → consistent w → P w → P w'.
Proof.
  intros Hstep. induction acts as [|a acts IH]; intros w w'; cbn [run].
  - intros [= <-]. auto.
  - destruct (step is_email a w) as [w1|] eqn:Ha; [|discriminate]. cbn.
    intros Hrun Hc HP. apply (IH w1 w' Hrun).
    + eapply step_consistent; eassumption.
    + eapply Hstep; eassumption.
Qed.

Lemma step_ids_canonical (a : action) (w w' : world) :
  step is_email a w = Some w' → consistent w →
  registry_ids_canonical w → registry_ids_canonical w'.
Proof.
  intros Hstep (I1 & _ & _) Hcan.
  destruct (step_cases is_email a w w' Hstep)
    as [(_ & Ht & _)|[(e & n & Hfresh & ->)|(wid & c & f & Hlive & -> & _)]].
  - unfold registry_ids_canonical. rewrite Ht. exact Hcan.
  - intros id. unfold submitted; cbn [tasks].
    destruct (decide (id = randomUUID e)) as [->|Hne].
    + intros _. unfold fresh_uuid in Hfresh.
      apply andb_true_iff in Hfresh as [Hfresh _].
      apply andb_true_iff in Hfresh as [Hfresh _]. exact Hfresh.
    + rewrite lookup_insert_ne by congruence. apply Hcan.
  - destruct (I1 wid c Hlive) as (Ht & _).
    unfold registry_ids_canonical, delivered; cbn [tasks].
    rewrite (insert_id _ _ _ Ht). exact Hcan.
Qed.

Lemma step_one_worker_per_task (a : action) (w w' : world) :
  step is_email a w = Some w' → consistent w →
  one_worker_per_task w → one_worker_per_task w'.
Proof.
  intros Hstep (I1 & _ & _) [Ht Hw].
  destruct (step_cases is_email a w w' Hstep)
    as [(Hh' & Ht' & Hw')|[(e & n & Hfresh & ->)|(wid & c & f & Hlive & -> & _)]].
  - unfold one_worker_per_task. rewrite Hh', Ht', Hw'. auto.
  - apply fresh_uuid_tasks in Hfresh.
    unfold one_worker_per_task, submitted; cbn [tasks heap workers].
    rewrite !map_size_insert_None
      by first [exact Hfresh | apply fresh_heap_None | apply fresh_workers_None].
    split; congruence.
  - destruct (I1 wid c Hlive) as (Ht0 & _).
    unfold one_worker_per_task, delivered; cbn [tasks heap workers].
    rewrite (insert_id _ _ _ Ht0).
    rewrite <- !size_dom, !dom_alter_L, !size_dom. auto.
Qed.

End Registry.

(** X17. Every registered task can be polled.  In every world the system
    reaches from a start of the process, with [randomUUID()] giving
    ids of the canonical shape, [GET /tasks/:taskId] answers 200 with
    the record of the registry for every id that is registered. *)
Theorem registered_task_is_polled
    (is_email : string → bool) (f : file_state) (wr : bool)
    (acts : list action) (w : world) (e : env) (id : string) (t : Task.t) :
  run is_email acts (boot f wr) = Some w →
  registered w id = Some t →
  (serve is_email e (GET_tasks_id id) w).1 = Response 200 (OneTask t).
Proof.
  intros Hrun Hreg.
  assert (Hcan : registry_ids_canonical w).
  { refine (run_invariant is_email registry_ids_canonical
              (step_ids_canonical is_email) acts _ w Hrun (consistent_boot f wr) _).
    intros id0 [l Hl]. cbn in Hl. rewrite lookup_empty in Hl. discriminate. }
  rewrite serve_get_tasks_id, Hreg.
  rewrite Hcan; [reflexivity|].
  unfold registered in Hreg. destruct (tasks w !! id); [eauto | discriminate].
Qed.

Lemma registered_task_is_polled_witness :
  ∃ w t,
    run email_like first_task (boot Absent true) = Some w
    ∧ registered w (randomUUID env0) = Some t
    ∧ (serve email_like env1 (GET_tasks_id (randomUUID env0)) w).1
      = Response 200 (OneTask t).
Proof.
  pose (w := default (boot Absent true)
               (run email_like first_task (boot Absent true))).
  assert (Hrun : run email_like first_task (boot Absent true) = Some w)
    by (vm_compute; reflexivity).
  assert (Hreg : registered w (randomUUID env0)
                 = Some (Task.mk (randomUUID env0) Status.completed (Finite 5)
                           (Some (Finite (1 # 4))) (Some 4) None))
    by (vm_compute; reflexivity).
  exists w. eexists. split; [exact Hrun|]. split; [exact Hreg|].
  exact (registered_task_is_polled email_like Absent true first_task w env1
           (randomUUID env0) _ Hrun Hreg).
Defined.

(** X18. One worker for each task, and nothing is ever taken away.  In
    every world the system reaches from a start of the process there
    are as many registered ids as task objects and as workers: each
    accepted submission adds one of each, and no request or report
    removes a task or a worker. *)
Theorem one_worker_for_each_task
    (is_email : string → bool) (f : file_state) (wr : bool)
    (acts more : list action) (w w' : world) :
  run is_email acts (boot f wr) = Some w →
  run is_email more w = Some w' →
  one_worker_per_task w
  ∧ (size (tasks w) ≤ size (tasks w'))%nat
  ∧ ∀ id, is_Some (registered w id) → is_Some (registered w' id).
Proof.
  intros Hrun Hmore.
  assert (Hc : consistent w)
    by (eapply run_consistent; [exact Hrun | apply consistent_boot]).
  split; [|split].
  - refine (run_invariant is_email one_worker_per_task
              (step_one_worker_per_task is_email) acts _ w Hrun (consistent_boot f wr) _).
    split; reflexivity.
  - revert Hmore Hc.
    refine (λ Hmore Hc,
              run_invariant is_email (λ v, (size (tasks w) ≤ size (tasks v))%nat)
                _ more w w' Hmore Hc (le_n _)).
    intros a v v' Hstep (I1 & _ & _) Hle.
    destruct (step_cases is_email a v v' Hstep)
      as [(_ & Ht & _)|[(e & n & Hfresh & ->)|(wid & c & g & Hlive & -> & _)]].
    + rewrite Ht. exact Hle.
    + apply fresh_uuid_tasks in Hfresh. unfold submitted; cbn [tasks].
      rewrite map_size_insert_None by exact Hfresh. lia.
    + destruct (I1 wid c Hlive) as (Ht0 & _). unfold delivered; cbn [tasks].
      rewrite (insert_id _ _ _ Ht0). exact Hle.
  - intros id [t Ht].
    destruct (run_task is_email more w w' id t Hmore Hc Ht) as (t' & Ht' & _). eauto.
Qed.

Lemma one_worker_for_each_task_witness :
  ∃ w w',
    run email_like first_task (boot Absent true) = Some w
    ∧ run email_like and_then w = Some w'
    ∧ one_worker_per_task w
    ∧ (size (tasks w) ≤ size (tasks w'))%nat
    ∧ ∀ id, is_Some (registered w id) → is_Some (registered w' id).
Proof.
  pose (w := default (boot Absent true)
               (run email_like first_task (boot Absent true))).
  pose (w' := default (boot Absent true) (run email_like and_then w)).
  assert (Hw : run email_like first_task (boot Absent true) = Some w)
    by (vm_compute; reflexivity).
  assert (Hw' : run email_like and_then w = Some w')
    by (vm_compute; reflexivity).
  exists w, w'. split; [exact Hw|]. split; [exact Hw'|].
  exact (one_worker_for_each_task email_like Absent true first_task and_then w w' Hw Hw').
Defined.
